(** * OpenTrace web client: graph layout and highlight overlay

    A shallow embedding of

    - [web/src/graph/layout.ts]: [applyDagreLayout], [getLayoutedElements];
    - [web/src/components/FlowCanvas.tsx]: the ReactFlow conversion and the
      two memoised projections [styledNodes] and [styledEdges];
    - [web/src/types.ts]: [NodeData], [FlowNode], [FlowEdge] and the other
      shapes the components exchange;
    - [web/src/graph/nodes/SpanNode.tsx], [web/src/components/NodeDetails.tsx]:
      the class of a span node and the tags the details panel lists;
    - [web/src/api.ts] and the handlers of [RecordButton.tsx], [RepoInput.tsx],
      [ChatPanel.tsx] and [App.tsx].

    JavaScript numbers are IEEE 754 binary64 values, so they are embedded as
    Rocq's primitive floats; equality of two coordinates below is therefore
    equality of the binary64 values.  Optional properties ([field?: T]) are
    [option]s, [None] standing for [undefined]. *)

From Stdlib Require Import Floats.
From stdpp Require Import base option list strings gmap.

Local Open Scope string_scope.

(** ** JavaScript preliminaries *)

(** A value of type [unknown], as it comes out of [response.json()]. *)
#[local] Unset Elimination Schemes.
Inductive JsValue : Type :=
| JsNull
| JsBool (b : bool)
| JsNumber (n : float)
| JsString (s : string)
| JsArray (items : list JsValue)
| JsObject (fields : list (string * JsValue)).
#[local] Set Elimination Schemes.

(** Exceptions the modelled code can end with. *)
Inductive JsError : Type :=
| TypeError (message : string)
| LibraryError (message : string).

(** The result of running a function body: it returns or it throws. *)
Inductive outcome (A : Type) : Type :=
| Returns (value : A)
| Throws (err : JsError).
Arguments Returns {A} value.
Arguments Throws {A} err.

#[global] Instance outcome_ret : MRet outcome := fun A a => Returns a.
#[global] Instance outcome_bind : MBind outcome := fun A B f m =>
  match m with
  | Returns a => f a
  | Throws e => Throws e
  end.

(** [Array.prototype.map] with a callback that may throw: elements are
    visited left to right and the first exception aborts the call. *)
Fixpoint array_map {A B : Type} (f : A -> outcome B) (arr : list A)
  : outcome (list B) :=
  match arr with
  | [] => Returns []
  | a :: rest =>
      b ← f a;
      bs ← array_map f rest;
      Returns (b :: bs)
  end.

(** [Array.prototype.includes] on an array of strings. *)
Definition includes (arr : list string) (s : string) : bool :=
  bool_decide (s ∈ arr).

(** Reading a numeric property that may be [undefined] in an arithmetic
    context: [undefined] converts to [NaN]. *)
Definition to_number (v : option float) : float :=
  default nan v.

(** [a || b] for a boolean [a] and a [boolean | undefined] operand [b]: the
    operator yields its left operand when truthy, otherwise its right
    operand unchanged. *)
Definition js_or (a : bool) (b : option bool) : option bool :=
  if a then Some true else b.

(** Truthiness of a [boolean | undefined] value. *)
Definition truthy (b : option bool) : bool :=
  default false b.

(** ** [types.ts] *)

Inductive Status : Type := success | error.

Record NodeData : Type := {
  spanId : string;
  operationName : string;
  serviceName : string;
  duration : float;
  startTime : float;
  status : Status;
  tags : list (string * JsValue);
  highlighted : option bool
}.

Record XYPosition : Type := { pos_x : float; pos_y : float }.

Record FlowNode : Type := {
  node_id : string;
  node_type : string;
  node_position : XYPosition;
  node_data : NodeData
}.

Record EdgeData : Type := {
  edgedata_type : string;
  latencyMs : option float
}.

Record FlowEdge : Type := {
  edge_id : string;
  edge_source : string;
  edge_target : string;
  edge_data : option EdgeData;
  edge_animated : option bool
}.

(** ** The part of graphlib's [Graph] that [layout.ts] drives

    [dagre.graphlib.Graph] belongs to the graphlib package that dagre
    re-exports; the operations below follow its documented behaviour.  The
    graph keeps its nodes and edges in objects keyed by name; what is
    recorded here is the content of those objects in insertion order.  The
    graph is created with the default options (directed, not a multigraph),
    so at most one edge is kept per key. *)
Module graphlib.

Inductive RankDir : Type := TB | LR | BT | RL.

(** The object handed to [setGraph]. *)
Record GraphLabel : Type := {
  rankdir : RankDir;
  nodesep : float;
  ranksep : float;
  marginx : float;
  marginy : float
}.

(** A node label: [{ width, height }] when it is created, with [x] and
    [y] written into the same object by the layout. *)
Record NodeLabel : Type := {
  width : float;
  height : float;
  x : option float;
  y : option float
}.

(** Edges are stored under a key made of the two names:
    [v + EDGE_KEY_DELIM + w + EDGE_KEY_DELIM + DEFAULT_EDGE_NAME]. *)
Definition EDGE_KEY_DELIM : string := String (Ascii.ascii_of_nat 1) EmptyString.
Definition DEFAULT_EDGE_NAME : string := String (Ascii.ascii_of_nat 0) EmptyString.

Definition edgeArgsToId (v w : string) : string :=
  v ++ EDGE_KEY_DELIM ++ w ++ EDGE_KEY_DELIM ++ DEFAULT_EDGE_NAME.

Record Graph : Type := {
  _label : option GraphLabel;
  _nodes : list (string * option NodeLabel);
  _edgeObjs : list (string * (string * string))
}.

(** [new Graph()] *)
Definition empty : Graph :=
  {| _label := None; _nodes := []; _edgeObjs := [] |}.

Definition setGraph (label : GraphLabel) (g : Graph) : Graph :=
  {| _label := Some label; _nodes := _nodes g; _edgeObjs := _edgeObjs g |}.

Definition hasNode (g : Graph) (v : string) : bool :=
  bool_decide (v ∈ (_nodes g).*1).

Fixpoint replace_label (v : string) (value : option NodeLabel)
    (ns : list (string * option NodeLabel))
  : list (string * option NodeLabel) :=
  match ns with
  | [] => []
  | (w, old) :: rest =>
      if decide (w = v) then (w, value) :: rest
      else (w, old) :: replace_label v value rest
  end.

(** [setNode(v, value)]: an existing node keeps its place and gets the new
    label, a new node is added after the others. *)
Definition setNode (v : string) (value : NodeLabel) (g : Graph) : Graph :=
  {| _label := _label g;
     _nodes := if hasNode g v then replace_label v (Some value) (_nodes g)
               else _nodes g ++ [(v, Some value)];
     _edgeObjs := _edgeObjs g |}.

(** [setNode(v)] with no value: an existing node is left alone, a new node
    gets the default node label, which is [undefined] since
    [setDefaultNodeLabel] is never called. *)
Definition ensureNode (v : string) (g : Graph) : Graph :=
  {| _label := _label g;
     _nodes := if hasNode g v then _nodes g else _nodes g ++ [(v, None)];
     _edgeObjs := _edgeObjs g |}.

Definition hasEdge (g : Graph) (v w : string) : bool :=
  bool_decide (edgeArgsToId v w ∈ (_edgeObjs g).*1).

(** [setEdge(v, w)]: an edge whose key is already there is kept as it is;
    otherwise both end points are created when missing and the edge is
    added with the default edge label. *)
Definition setEdge (v w : string) (g : Graph) : Graph :=
  if hasEdge g v w then g
  else
    let g := ensureNode v g in
    let g := ensureNode w g in
    {| _label := _label g;
       _nodes := _nodes g;
       _edgeObjs := _edgeObjs g ++ [(edgeArgsToId v w, (v, w))] |}.

Fixpoint lookup_label (v : string) (ns : list (string * option NodeLabel))
  : option NodeLabel :=
  match ns with
  | [] => None
  | (w, l) :: rest => if decide (w = v) then l else lookup_label v rest
  end.

(** [node(v)]: the label stored for [v]; [undefined] both for a missing
    node and for a node whose label is [undefined]. *)
Definition node (g : Graph) (v : string) : option NodeLabel :=
  lookup_label v (_nodes g).

End graphlib.

(** ** [graph/layout.ts] *)

Definition NODE_WIDTH : float := 220%float.
Definition NODE_HEIGHT : float := 80%float.

Record LayoutOptions : Type := {
  direction : option graphlib.RankDir;
  nodeSpacing : option float;
  rankSpacing : option float
}.

(** The object literal [{}]. *)
Definition no_options : LayoutOptions :=
  {| direction := None; nodeSpacing := None; rankSpacing := None |}.

(** The graph built by the first half of [applyDagreLayout], up to the call
    of [dagre.layout]. *)
Definition build_dagreGraph (nodes : list FlowNode) (edges : list FlowEdge)
    (options : option LayoutOptions) : graphlib.Graph :=
  let options := default no_options options in
  let direction := default graphlib.TB (direction options) in
  let nodeSpacing := default 50%float (nodeSpacing options) in
  let rankSpacing := default 80%float (rankSpacing options) in
  let dagreGraph := graphlib.empty in
  let dagreGraph :=
    graphlib.setGraph
      {| graphlib.rankdir := direction;
         graphlib.nodesep := nodeSpacing;
         graphlib.ranksep := rankSpacing;
         graphlib.marginx := 20%float;
         graphlib.marginy := 20%float |} dagreGraph in
  let dagreGraph :=
    foldl (fun g node =>
             graphlib.setNode (node_id node)
               {| graphlib.width := NODE_WIDTH;
                  graphlib.height := NODE_HEIGHT;
                  graphlib.x := None;
                  graphlib.y := None |} g)
          dagreGraph nodes in
  foldl (fun g edge => graphlib.setEdge (edge_source edge) (edge_target edge) g)
        dagreGraph edges.

(** The top-left corner computed in the callback of [nodes.map]; the label
    holds the centre ("Dagre uses center position, ReactFlow uses
    top-left"). *)
Definition top_left (nodeWithPosition : graphlib.NodeLabel) : XYPosition :=
  {| pos_x := (to_number (graphlib.x nodeWithPosition) - NODE_WIDTH / 2)%float;
     pos_y := (to_number (graphlib.y nodeWithPosition) - NODE_HEIGHT / 2)%float |}.

(** The object literal [{ ...node, position }]. *)
Definition with_position (node : FlowNode) (position : XYPosition) : FlowNode :=
  {| node_id := node_id node;
     node_type := node_type node;
     node_position := position;
     node_data := node_data node |}.

(** The callback of [nodes.map] in [applyDagreLayout]: reading [.x] of an
    [undefined] label is a [TypeError]. *)
Definition place (dagreGraph : graphlib.Graph) (node : FlowNode)
  : outcome FlowNode :=
  match graphlib.node dagreGraph (node_id node) with
  | None => Throws (TypeError "Cannot read properties of undefined")
  | Some nodeWithPosition =>
      Returns (with_position node (top_left nodeWithPosition))
  end.

Section Layout.

(** [dagre.layout] comes from the dagre package, which is not part of
    this repository: it is a parameter of the development.  It receives
    the graph, may throw, and otherwise leaves its results in the graph. *)
Variable dagre_layout : graphlib.Graph -> outcome graphlib.Graph.

Definition applyDagreLayout (nodes : list FlowNode) (edges : list FlowEdge)
    (options : option LayoutOptions)
  : outcome (list FlowNode * list FlowEdge) :=
  let dagreGraph := build_dagreGraph nodes edges options in
  dagreGraph ← dagre_layout dagreGraph;
  layoutedNodes ← array_map (place dagreGraph) nodes;
  Returns (layoutedNodes, edges).

(** The [direction] parameter of [getLayoutedElements] ranges over
    ['TB' | 'LR'] only. *)
Inductive TBorLR : Type := TB' | LR'.

Definition rankdir_of (d : TBorLR) : graphlib.RankDir :=
  match d with TB' => graphlib.TB | LR' => graphlib.LR end.

Definition getLayoutedElements (nodes : list FlowNode)
    (edges : list FlowEdge) (direction : option TBorLR)
  : outcome (list FlowNode * list FlowEdge) :=
  let direction := default TB' direction in
  applyDagreLayout nodes edges
    (Some {| direction := Some (rankdir_of direction);
             nodeSpacing := None;
             rankSpacing := None |}).

End Layout.

(** *** One call after another

    Nothing of [layout.ts] outlives a call: the graph is made by [new
    dagre.graphlib.Graph()] inside [applyDagreLayout] and the module holds
    two constants.  The library is not bound in that way; it may keep state
    of its own from one call to the next.  Here [dagre.layout] runs in a
    state of the library and leaves the next one, and so does the call. *)
Section Calls.

Context {World : Type}.
Variable dagre_layout :
  World -> graphlib.Graph -> outcome graphlib.Graph * World.

Definition applyDagreLayout_in (w : World) (nodes : list FlowNode)
    (edges : list FlowEdge) (options : option LayoutOptions)
  : outcome (list FlowNode * list FlowEdge) * World :=
  let dagreGraph := build_dagreGraph nodes edges options in
  let '(laid_out, w) := dagre_layout w dagreGraph in
  (dagreGraph ← laid_out;
   layoutedNodes ← array_map (place dagreGraph) nodes;
   Returns (layoutedNodes, edges),
   w).

End Calls.

(** ** Objects and references

    [applyDagreLayout] receives references to two arrays of objects and
    returns references.  The store below keeps the arrays and the node and
    edge objects by reference, which is what mutation of the input and
    sharing between input and output are about; the [position] and [data]
    of a node are kept by value, no code under study writes into them. *)

Definition loc : Type := positive.

Inductive object : Type :=
| NodeObject (n : FlowNode)
| EdgeObject (e : FlowEdge)
| NodeArray (items : list loc)
| EdgeArray (items : list loc).

(** Creating an object ([{ ... }], the result of [map]): a reference that
    is not in use yet. *)
Definition alloc (o : object) (h : gmap loc object) : loc * gmap loc object :=
  let l := fresh (dom h) in (l, <[l := o]> h).

Definition read_node (h : gmap loc object) (l : loc) : outcome FlowNode :=
  match h !! l with
  | Some (NodeObject n) => Returns n
  | _ => Throws (TypeError "not a FlowNode")
  end.

Definition read_edge (h : gmap loc object) (l : loc) : outcome FlowEdge :=
  match h !! l with
  | Some (EdgeObject e) => Returns e
  | _ => Throws (TypeError "not a FlowEdge")
  end.

(** The node values an array reference leads to. *)
Definition read_nodes (h : gmap loc object) (arr : loc)
  : outcome (list FlowNode) :=
  match h !! arr with
  | Some (NodeArray items) => array_map (read_node h) items
  | _ => Throws (TypeError "not a FlowNode[]")
  end.

Definition read_edges (h : gmap loc object) (arr : loc)
  : outcome (list FlowEdge) :=
  match h !! arr with
  | Some (EdgeArray items) => array_map (read_edge h) items
  | _ => Throws (TypeError "not a FlowEdge[]")
  end.

(** One new object per element, in order: the objects built by the
    callback of [nodes.map]. *)
Fixpoint alloc_nodes (ns : list FlowNode) (h : gmap loc object)
  : list loc * gmap loc object :=
  match ns with
  | [] => ([], h)
  | n :: rest =>
      let '(l, h) := alloc (NodeObject n) h in
      let '(ls, h) := alloc_nodes rest h in
      (l :: ls, h)
  end.

Section LayoutOnStore.

Variable dagre_layout : graphlib.Graph -> outcome graphlib.Graph.

(** [applyDagreLayout] on references.  The body only reads its arguments;
    the graph it builds and hands to the library is local to the call and
    holds names and fresh label objects, nothing of the input.  The objects
    it creates are the copies made by [nodes.map] and the array holding
    them; the [edges] reference is returned as it came in. *)
Definition applyDagreLayout_refs (nodes edges : loc)
    (options : option LayoutOptions) (h : gmap loc object)
  : outcome ((loc * loc) * gmap loc object) :=
  ns ← read_nodes h nodes;
  es ← read_edges h edges;
  r ← applyDagreLayout dagre_layout ns es options;
  let '(ls, h) := alloc_nodes r.1 h in
  let '(layoutedNodes, h) := alloc (NodeArray ls) h in
  Returns ((layoutedNodes, edges), h).

End LayoutOnStore.

(** What a caller finds behind the references a call returned. *)
Definition result_values (r : outcome ((loc * loc) * gmap loc object))
  : outcome (list FlowNode * list FlowEdge) :=
  match r with
  | Returns ((nodes, edges), h) =>
      ns ← read_nodes h nodes;
      es ← read_edges h edges;
      Returns (ns, es)
  | Throws e => Throws e
  end.

(** ** [components/FlowCanvas.tsx] *)

(** The [style] of an edge: the two properties the component sets, and
    whatever else the object holds, which a spread copies along. *)
Record EdgeStyle : Type := {
  stroke : option string;
  strokeWidth : option float;
  style_rest : list (string * JsValue)
}.

(** ReactFlow's [Node<NodeData>] and [Edge]: the properties the component
    reads or writes, and the remaining ones ([selected], [dragging],
    [measured], ...) which a spread copies along. *)
Record RFNode : Type := {
  rf_id : string;
  rf_type : string;
  rf_position : XYPosition;
  rf_data : NodeData;
  rf_rest : list (string * JsValue)
}.

Record RFEdge : Type := {
  rfe_id : string;
  rfe_source : string;
  rfe_target : string;
  rfe_animated : option bool;
  rfe_style : option EdgeStyle;
  rfe_rest : list (string * JsValue)
}.

(** [node.type || 'span']: the empty string is falsy. *)
Definition type_or_span (type : string) : string :=
  if decide (type = "") then "span" else type.

(** "Convert to ReactFlow format" *)
Definition rfNodes (nodes : list FlowNode) : list RFNode :=
  map (fun node =>
         {| rf_id := node_id node;
            rf_type := type_or_span (node_type node);
            rf_position := node_position node;
            rf_data := node_data node;
            rf_rest := [] |}) nodes.

Definition rfEdges (edges : list FlowEdge) : list RFEdge :=
  map (fun edge =>
         {| rfe_id := edge_id edge;
            rfe_source := edge_source edge;
            rfe_target := edge_target edge;
            rfe_animated := edge_animated edge;
            rfe_style := Some {| stroke := Some "#30363d";
                                 strokeWidth := Some 2%float;
                                 style_rest := [] |};
            rfe_rest := [] |}) edges.

(** The object literal [{ ...data, highlighted }]. *)
Definition with_highlighted (data : NodeData) (flag : bool) : NodeData :=
  {| spanId := spanId data;
     operationName := operationName data;
     serviceName := serviceName data;
     duration := duration data;
     startTime := startTime data;
     status := status data;
     tags := tags data;
     highlighted := Some flag |}.

(** "Apply highlighting": the two [useMemo] bodies. *)
Definition styledNodes (nodes : list RFNode) (highlightedNodes : list string)
  : list RFNode :=
  map (fun node =>
         {| rf_id := rf_id node;
            rf_type := rf_type node;
            rf_position := rf_position node;
            rf_data :=
              with_highlighted (rf_data node)
                (includes highlightedNodes (rf_id node));
            rf_rest := rf_rest node |}) nodes.

Definition styledEdges (edges : list RFEdge) (highlightedEdges : list string)
  : list RFEdge :=
  map (fun edge =>
         {| rfe_id := rfe_id edge;
            rfe_source := rfe_source edge;
            rfe_target := rfe_target edge;
            rfe_animated :=
              js_or (includes highlightedEdges (rfe_id edge)) (rfe_animated edge);
            rfe_style :=
              Some {| stroke :=
                        Some (if includes highlightedEdges (rfe_id edge)
                              then "#d29922" else "#30363d");
                      strokeWidth :=
                        Some (if includes highlightedEdges (rfe_id edge)
                              then 3%float else 2%float);
                      style_rest :=
                        from_option style_rest [] (rfe_style edge) |};
            rfe_rest := rfe_rest edge |}) edges.

(** What is handed to [<ReactFlow>]: the decorated nodes and edges for a
    highlight set. *)
Definition applyHighlight (g : list RFNode * list RFEdge)
    (highlightedNodes highlightedEdges : list string)
  : list RFNode * list RFEdge :=
  (styledNodes g.1 highlightedNodes, styledEdges g.2 highlightedEdges).

(** [FlowMeta] and [FlowGraph] of [types.ts]. *)
Record FlowMeta : Type := {
  meta_traceId : option string;
  totalDurationMs : option float;
  spanCount : float;
  serviceCount : float;
  version : option string
}.

Record FlowGraph : Type := {
  graph_nodes : list FlowNode;
  graph_edges : list FlowEdge;
  graph_meta : FlowMeta
}.

Section Canvas.

Variable dagre_layout : graphlib.Graph -> outcome graphlib.Graph.

(** "Update nodes and edges when data changes": the node and edge state the
    effect of [FlowCanvas] sets for [data].  An exception of the layout is
    not caught. *)
Definition canvas_elements (data : option FlowGraph)
  : outcome (list RFNode * list RFEdge) :=
  match data with
  | None => Returns ([], [])
  | Some data =>
      layouted ← applyDagreLayout dagre_layout
                   (graph_nodes data) (graph_edges data) None;
      Returns (rfNodes layouted.1, rfEdges layouted.2)
  end.

(** What [FlowCanvas] hands to [<ReactFlow>] once the effect has run: the
    empty state (nothing) without data, the styled nodes and edges
    otherwise. *)
Definition FlowCanvas (data : option FlowGraph)
    (highlightedNodes highlightedEdges : list string)
  : outcome (option (list RFNode * list RFEdge)) :=
  match data with
  | None => Returns None
  | Some _ =>
      elements ← canvas_elements data;
      Returns (Some (styledNodes elements.1 highlightedNodes,
                     styledEdges elements.2 highlightedEdges))
  end.

End Canvas.

(** The [nodeColor] callback of the [<MiniMap>]. *)
Definition nodeColor (node : RFNode) : string :=
  match status (rf_data node) with
  | error => "#f85149"
  | success =>
      if truthy (highlighted (rf_data node)) then "#d29922" else "#30363d"
  end.

(** ** [graph/nodes/SpanNode.tsx] *)

(** [.filter(Boolean)] on strings: the empty string is the falsy one. *)
Definition filter_Boolean (items : list string) : list string :=
  filter (fun s => s <> "") items.

(** [Array.prototype.join] on strings. *)
Definition join (separator : string) (items : list string) : string :=
  String.concat separator items.

(** The [className] of a span node. *)
Definition classNames (data : NodeData) : string :=
  let isError := match status data with error => true | success => false end in
  let isHighlighted := highlighted data in
  join " "
    (filter_Boolean
       ["span-node";
        if isError then "error" else "";
        if truthy isHighlighted then "highlighted" else ""]).

(** ** [components/NodeDetails.tsx] *)

(** [key.startsWith(prefix)] *)
Definition startsWith (s prefix : string) : bool := String.prefix prefix s.

(** "Filter out internal tags": [Object.entries(node.tags || {})] without
    the keys of OpenTelemetry itself. *)
Definition displayTags (node : NodeData) : list (string * JsValue) :=
  List.filter
    (fun '(key, _) =>
       negb (startsWith key "otel.") && negb (startsWith key "telemetry."))
    (tags node).

(** ** Promises

    What an awaited call ends with, and the value a [catch] clause gets:
    an [Error] with its message, or anything else. *)
Inductive thrown : Type :=
| ThrownError (message : string)
| ThrownOther (value : JsValue).

Inductive settled (A : Type) : Type :=
| Fulfilled (value : A)
| Rejected (reason : thrown).
Arguments Fulfilled {A} value.
Arguments Rejected {A} reason.

(** [err instanceof Error ? err.message : fallback] *)
Definition message_or (fallback : string) (err : thrown) : string :=
  match err with
  | ThrownError message => message
  | ThrownOther _ => fallback
  end.

(** Truthiness of a [string | undefined | null] value. *)
Definition nonempty (s : option string) : bool :=
  match s with
  | Some s => bool_decide (s <> "")
  | None => false
  end.

(** ** [types.ts], continued *)

Inductive RepoStatus : Type :=
| analyzing | ready | building | running | stopped | repo_error.

Inductive RepoLanguage : Type := python | nodejs | unknown.

Record RepoInfo : Type := {
  repoId : string;
  githubUrl : string;
  repo_status : RepoStatus;
  language : option RepoLanguage;
  framework : option string;
  entrypoint : option string;
  port : float;
  endpoints : list string;
  containerId : option string;
  errorMessage : option string
}.

Record RecordRequest : Type := {
  method : string;
  path : string;
  body : option (list (string * JsValue));
  request_repoId : option string
}.

Record RecordResponse : Type := {
  response_status : float;
  response_traceId : option string;
  responseBody : option JsValue;
  response_error : option string
}.

Inductive Role : Type := user | assistant.

Record ChatMessage : Type := {
  role : Role;
  content : string;
  timestamp : option float
}.

Record Evidence : Type := {
  evidence_traceId : option string;
  spanIds : option (list string)
}.

Record UIHints : Type := {
  highlightNodes : option (list string);
  highlightEdges : option (list string);
  suggestedFilters : option (list string)
}.

Record ActionRequest : Type := {
  actionType : string;
  description : string;
  params : list (string * JsValue);
  requiresApproval : bool
}.

(** The component reads [response.ui?.…], so [ui] may be missing. *)
Record AgentResponse : Type := {
  answer : string;
  evidence : Evidence;
  ui : option UIHints;
  actions : option (list ActionRequest)
}.

(** ** [api.ts]

    What [fetch] resolves to, as far as the wrappers look at it: [ok],
    [status] and the outcome of [response.json()].  The wrappers are
    modelled on the outcome of the [fetch] they await. *)
Record Response (A : Type) : Type := {
  ok : bool;
  http_status : float;
  json : settled A
}.
Arguments ok {A} _.
Arguments http_status {A} _.
Arguments json {A} _.

(** The pattern of the wrappers: [if (!response.ok) throw new
    Error(message); return response.json()]. *)
Definition json_or_throw {A} (message : string)
    (fetched : settled (Response A)) : settled A :=
  match fetched with
  | Rejected reason => Rejected reason
  | Fulfilled response =>
      if ok response then json response
      else Rejected (ThrownError message)
  end.

Definition getRuntimeFlow (traceId : string)
    (fetched : settled (Response FlowGraph)) : settled FlowGraph :=
  match fetched with
  | Rejected reason => Rejected reason
  | Fulfilled response =>
      if ok response then json response
      else if (http_status response =? 404)%float
           then Rejected (ThrownError ("Trace " ++ traceId ++ " not found"))
           else Rejected (ThrownError "Failed to fetch runtime flow")
  end.

Definition getStaticFlow := @json_or_throw FlowGraph "Failed to fetch static flow".
Definition recordRequest := @json_or_throw RecordResponse "Failed to record request".
Definition chat := @json_or_throw AgentResponse "Failed to chat with agent".
Definition analyzeRepo := @json_or_throw RepoInfo "Failed to analyze repo".
Definition getRepo := @json_or_throw RepoInfo "Failed to fetch repo".
Definition startRepo := @json_or_throw RepoInfo "Failed to start repo".

(** ** Components with state

    A handler is modelled as the state it leaves and the calls it makes on
    the callbacks it was given, once everything it awaits has settled and
    no other event comes in between.  [trim] is [String.prototype.trim];
    what the network answers and what [Date.now()] gives are arguments. *)

(** *** [components/RecordButton.tsx] *)

Record Endpoint : Type := { endpoint_path : string; endpoint_label : string }.

Definition COMMON_ENDPOINTS : list Endpoint :=
  [ {| endpoint_path := "/"; endpoint_label := "Root (/)" |};
    {| endpoint_path := "/health"; endpoint_label := "Health Check" |};
    {| endpoint_path := "/api"; endpoint_label := "API Root" |};
    {| endpoint_path := "/api/health"; endpoint_label := "API Health" |} ].

Record RecordButtonState : Type := {
  rb_isOpen : bool;
  rb_loading : bool;
  rb_error : option string;
  customPath : string
}.

(** "Determine which endpoints to show" *)
Definition repoEndpoints (activeRepo : option RepoInfo) : list Endpoint :=
  match activeRepo with
  | Some repo =>
      match endpoints repo with
      | [] => COMMON_ENDPOINTS
      | _ :: _ =>
          map (fun path => {| endpoint_path := path; endpoint_label := path |})
              (endpoints repo)
      end
  | None => COMMON_ENDPOINTS
  end.

(** The path [handleCustomRecord] records for what was typed. *)
Definition custom_path (customPath : string) : string :=
  if startsWith customPath "/" then customPath else "/" ++ customPath.

Section RecordButton.

Variable trim : string -> string.
Variable network : RecordRequest -> settled (Response RecordResponse).

Definition handleRecord (path : string) (repoId : option string)
    (st : RecordButtonState) : RecordButtonState * list string :=
  (* setLoading(true); setError(null); setIsOpen(false) *)
  let st := {| rb_isOpen := false; rb_loading := true; rb_error := None;
               customPath := customPath st |} in
  let '(message, completed) :=
    match recordRequest
            (network {| method := "GET"; path := path; body := None;
                        request_repoId := repoId |}) with
    | Fulfilled result =>
        if nonempty (response_error result)
        then (response_error result, [])
        else if nonempty (response_traceId result)
             then (rb_error st, [default "" (response_traceId result)])
             else (Some "No trace ID returned. The trace may take a moment to appear.",
                   [])
    | Rejected err => (Some (message_or "Failed to record" err), [])
    end in
  (* finally: setLoading(false) *)
  ({| rb_isOpen := rb_isOpen st; rb_loading := false; rb_error := message;
      customPath := customPath st |},
   completed).

Definition handleCustomRecord (activeRepo : option RepoInfo)
    (st : RecordButtonState) : RecordButtonState * list string :=
  if bool_decide (trim (customPath st) <> "") then
    let path := custom_path (customPath st) in
    let '(st, completed) := handleRecord path (repoId <$> activeRepo) st in
    (* setCustomPath('') *)
    ({| rb_isOpen := rb_isOpen st; rb_loading := rb_loading st;
        rb_error := rb_error st; customPath := "" |},
     completed)
  else (st, []).

End RecordButton.

(** *** [components/RepoInput.tsx] *)

Record RepoInputState : Type := {
  url : string;
  ri_loading : bool;
  ri_error : option string;
  repo : option RepoInfo
}.

Definition setRepo (result : RepoInfo) (st : RepoInputState) : RepoInputState :=
  {| url := url st; ri_loading := ri_loading st; ri_error := ri_error st;
     repo := Some result |}.

Definition setError (message : option string) (st : RepoInputState)
  : RepoInputState :=
  {| url := url st; ri_loading := ri_loading st; ri_error := message;
     repo := repo st |}.

Definition setLoading (flag : bool) (st : RepoInputState) : RepoInputState :=
  {| url := url st; ri_loading := flag; ri_error := ri_error st;
     repo := repo st |}.

(** What a run of [pollStatus] has done: the state, the calls of
    [onRepoReady], and whether a next poll is scheduled. *)
Record Polled : Type := {
  polled_state : RepoInputState;
  polled_ready : list RepoInfo;
  polled_pending : bool
}.

(** [pollStatus]: one answer of the network per poll, in order; when the
    answers given run out the next poll is still to come. *)
Fixpoint pollStatus (answers : list (settled (Response RepoInfo)))
    (st : RepoInputState) : Polled :=
  match answers with
  | [] => {| polled_state := st; polled_ready := []; polled_pending := true |}
  | answer :: later =>
      match getRepo answer with
      | Fulfilled result =>
          let st := setRepo result st in
          match repo_status result with
          | analyzing | building => pollStatus later st
          | ready | running =>
              {| polled_state := st; polled_ready := [result];
                 polled_pending := false |}
          | stopped | repo_error =>
              {| polled_state := st; polled_ready := [];
                 polled_pending := false |}
          end
      | Rejected err =>
          {| polled_state :=
               setError (Some (message_or "Failed to get status" err)) st;
             polled_ready := [];
             polled_pending := false |}
      end
  end.

Section RepoInput.

Variable trim : string -> string.

(** [handleAnalyze]; the polling it starts is not awaited, so [loading] is
    switched off before the polls run. *)
Definition handleAnalyze (analysis : settled (Response RepoInfo))
    (answers : list (settled (Response RepoInfo)))
    (st : RepoInputState) : Polled :=
  if bool_decide (trim (url st) <> "") then
    let st := setError None (setLoading true st) in
    match analyzeRepo analysis with
    | Fulfilled result =>
        let st := setLoading false (setRepo result st) in
        match repo_status result with
        | analyzing => pollStatus answers st
        | _ => {| polled_state := st; polled_ready := [];
                  polled_pending := false |}
        end
    | Rejected err =>
        {| polled_state :=
             setLoading false
               (setError (Some (message_or "Failed to analyze repo" err)) st);
           polled_ready := [];
           polled_pending := false |}
    end
  else {| polled_state := st; polled_ready := []; polled_pending := false |}.

End RepoInput.

Definition handleStart (started : settled (Response RepoInfo))
    (answers : list (settled (Response RepoInfo)))
    (st : RepoInputState) : Polled :=
  match repo st with
  | None => {| polled_state := st; polled_ready := []; polled_pending := false |}
  | Some _ =>
      let st := setLoading true st in
      match startRepo started with
      | Fulfilled result =>
          let st := setLoading false (setRepo result st) in
          match repo_status result with
          | building => pollStatus answers st
          | running =>
              {| polled_state := st; polled_ready := [result];
                 polled_pending := false |}
          | _ => {| polled_state := st; polled_ready := [];
                    polled_pending := false |}
          end
      | Rejected err =>
          {| polled_state :=
               setLoading false
                 (setError (Some (message_or "Failed to start repo" err)) st);
             polled_ready := [];
             polled_pending := false |}
      end
  end.

(** *** [components/ChatPanel.tsx] *)

Record ChatRequest : Type := {
  chat_message : string;
  selectedTraceId_param : option string
}.

Record ChatPanelState : Type := {
  cp_isOpen : bool;
  messages : list ChatMessage;
  input : string;
  cp_loading : bool;
  pendingAction : option ActionRequest
}.

(** [response.ui?.highlightNodes?.length]: the length of a list that may be
    missing, as a condition. *)
Definition has_items (l : option (list string)) : bool :=
  match l with
  | Some (_ :: _) => true
  | _ => false
  end.

(** The calls of [onHighlight] a response leads to: at most one. *)
Definition highlight_calls (response : AgentResponse)
  : list (list string * list string) :=
  if has_items (ui response ≫= highlightNodes)
     || has_items (ui response ≫= highlightEdges)
  then [(default [] (ui response ≫= highlightNodes),
         default [] (ui response ≫= highlightEdges))]
  else [].

(** [traceId || undefined] *)
Definition or_undefined (s : option string) : option string :=
  if nonempty s then s else None.

Section ChatPanel.

Variable trim : string -> string.
Variable traceId : option string.
Variable network : ChatRequest -> settled (Response AgentResponse).

(** [sendMessage]; [sent] and [answered] are what [Date.now()] gives when
    the user's message and the reply are built. *)
Definition sendMessage (sent answered : float) (st : ChatPanelState)
  : ChatPanelState * list (list string * list string) :=
  if negb (bool_decide (trim (input st) <> "")) || cp_loading st then (st, [])
  else
    let userMessage :=
      {| role := user; content := trim (input st); timestamp := Some sent |} in
    let messages := (messages st ++ [userMessage])%list in
    match chat (network {| chat_message := content userMessage;
                           selectedTraceId_param := or_undefined traceId |}) with
    | Fulfilled response =>
        let assistantMessage :=
          {| role := assistant; content := answer response;
             timestamp := Some answered |} in
        ({| cp_isOpen := cp_isOpen st;
            messages := (messages ++ [assistantMessage])%list;
            input := "";
            cp_loading := false;
            pendingAction :=
              match actions response with
              | Some (first :: _) => Some first
              | _ => pendingAction st
              end |},
         highlight_calls response)
    | Rejected err =>
        let errorMessage :=
          {| role := assistant;
             content := "Error: " ++ message_or "Failed to get response" err;
             timestamp := Some answered |} in
        ({| cp_isOpen := cp_isOpen st;
            messages := (messages ++ [errorMessage])%list;
            input := "";
            cp_loading := false;
            pendingAction := pendingAction st |},
         [])
    end.

End ChatPanel.

(** *** [App.tsx] *)

Inductive ViewMode : Type := runtime | static | overlay.

Record AppState : Type := {
  selectedTraceId : option string;
  flowData : option FlowGraph;
  selectedNode : option NodeData;
  highlightedNodes : list string;
  highlightedEdges : list string;
  viewMode : ViewMode;
  app_loading : bool;
  app_error : option string;
  activeRepo : option RepoInfo;
  jaegerConnected : bool
}.

Definition handleSelectTrace (traceId : string) (st : AppState) : AppState :=
  {| selectedTraceId := Some traceId;
     flowData := flowData st;
     selectedNode := None;
     highlightedNodes := [];
     highlightedEdges := [];
     viewMode := match viewMode st with static => runtime | mode => mode end;
     app_loading := app_loading st;
     app_error := app_error st;
     activeRepo := activeRepo st;
     jaegerConnected := jaegerConnected st |}.

Definition handleHighlight (nodeIds edgeIds : list string) (st : AppState)
  : AppState :=
  {| selectedTraceId := selectedTraceId st;
     flowData := flowData st;
     selectedNode := selectedNode st;
     highlightedNodes := nodeIds;
     highlightedEdges := edgeIds;
     viewMode := viewMode st;
     app_loading := app_loading st;
     app_error := app_error st;
     activeRepo := activeRepo st;
     jaegerConnected := jaegerConnected st |}.

(** "Fetch flow data when trace is selected": the first effect of [App],
    for the trace and view mode of the state and the answer of the flow
    endpoint it asks. *)
Definition fetchFlow (fetched : settled (Response FlowGraph)) (st : AppState)
  : AppState :=
  if nonempty (selectedTraceId st) then
    let result :=
      match viewMode st with
      | static => getStaticFlow fetched
      | _ => getRuntimeFlow (default "" (selectedTraceId st)) fetched
      end in
    match result with
    | Fulfilled data =>
        {| selectedTraceId := selectedTraceId st;
           flowData := Some data;
           selectedNode := selectedNode st;
           highlightedNodes := highlightedNodes st;
           highlightedEdges := highlightedEdges st;
           viewMode := viewMode st;
           app_loading := false;
           app_error := None;
           activeRepo := activeRepo st;
           jaegerConnected := jaegerConnected st |}
    | Rejected err =>
        {| selectedTraceId := selectedTraceId st;
           flowData := None;
           selectedNode := selectedNode st;
           highlightedNodes := highlightedNodes st;
           highlightedEdges := highlightedEdges st;
           viewMode := viewMode st;
           app_loading := false;
           app_error := Some (message_or "Failed to fetch flow" err);
           activeRepo := activeRepo st;
           jaegerConnected := jaegerConnected st |}
    end
  else
    {| selectedTraceId := selectedTraceId st;
       flowData := match viewMode st with
                   | static => flowData st
                   | _ => None
                   end;
       selectedNode := selectedNode st;
       highlightedNodes := highlightedNodes st;
       highlightedEdges := highlightedEdges st;
       viewMode := viewMode st;
       app_loading := app_loading st;
       app_error := app_error st;
       activeRepo := activeRepo st;
       jaegerConnected := jaegerConnected st |}.

(** What the canvas area shows. *)
Inductive CanvasArea : Type :=
| ShowsLoading
| ShowsError (message : string)
| ShowsCanvas (data : option FlowGraph) (highlightedNodes highlightedEdges : list string).

Definition canvas_area (st : AppState) : CanvasArea :=
  if app_loading st then ShowsLoading
  else if nonempty (app_error st) then ShowsError (default "" (app_error st))
  else ShowsCanvas (flowData st) (highlightedNodes st) (highlightedEdges st).

(** ** What the code relies on from [dagre.layout] *)

(** dagre's documented output, for the graph [g]: the call returns, and
    every node that was given a label object has [x] and [y] written into
    it. *)
Definition positioned_by
    (layout : graphlib.Graph -> outcome graphlib.Graph) (g : graphlib.Graph)
  : Prop :=
  exists g',
    layout g = Returns g' /\
    forall v l, graphlib.node g v = Some l ->
      exists l' cx cy,
        graphlib.node g' v = Some l'
        /\ graphlib.x l' = Some cx
        /\ graphlib.y l' = Some cy.

(** The same for every graph. *)
Definition assigns_coordinates
    (layout : graphlib.Graph -> outcome graphlib.Graph) : Prop :=
  forall g, positioned_by layout g.



(** ** Vocabulary of the statements *)

(** The label object created for every input node. *)
Definition footprint : graphlib.NodeLabel :=
  {| graphlib.width := NODE_WIDTH;
     graphlib.height := NODE_HEIGHT;
     graphlib.x := None;
     graphlib.y := None |}.

(** [n'] is the copy of [n] that [nodes.map] builds from the graph [g']
    left by the library. *)
Definition placed_from (g' : graphlib.Graph) (n n' : FlowNode) : Prop :=
  exists l,
    graphlib.node g' (node_id n) = Some l /\ n' = with_position n (top_left l).


(** The options with the documented defaults put in for the omitted
    fields. *)
Definition with_defaults (options : LayoutOptions) : LayoutOptions :=
  {| direction := Some (default graphlib.TB (direction options));
     nodeSpacing := Some (default 50%float (nodeSpacing options));
     rankSpacing := Some (default 80%float (rankSpacing options)) |}.

(** An edge is drawn emphasised when the overlay gave it the highlight
    stroke. *)
Definition emphasized (edge : RFEdge) : bool :=
  bool_decide (stroke <$> rfe_style edge = Some (Some "#d29922")).

(** The two names an edge joins. *)
Definition end_points (e : FlowEdge) : string * string :=
  (edge_source e, edge_target e).

(** The coordinates a call ended with, node by node. *)
Definition positions_of (r : outcome (list FlowNode * list FlowEdge))
  : outcome (list XYPosition) :=
  match r with
  | Returns (ns, _) => Returns (map node_position ns)
  | Throws e => Throws e
  end.

(** The answer keeps the polling going: the request succeeded and the
    repository is still being analysed or built. *)
Definition transient (answer : settled (Response RepoInfo)) : bool :=
  match getRepo answer with
  | Fulfilled result =>
      match repo_status result with
      | analyzing | building => true
      | _ => false
      end
  | Rejected _ => false
  end.

(** The highlight the application holds after the calls a handler made on
    [onHighlight], which is [handleHighlight] of [App]. *)
Definition after_highlights (calls : list (list string * list string))
    (st : AppState) : AppState :=
  foldl (fun st call => handleHighlight call.1 call.2 st) st calls.

(** ** A small layout to run the code with

    [column_layout] stands in for the library where a concrete run is
    wanted: it stacks the labelled nodes in one column, in the order the
    graph holds them, inside the margins and [ranksep] apart, and writes
    centre coordinates as dagre does. *)
Module column.
Import graphlib.

Fixpoint stack (left top gap : float)
    (ns : list (string * option NodeLabel))
  : list (string * option NodeLabel) :=
  match ns with
  | [] => []
  | (v, None) :: rest => (v, None) :: stack left top gap rest
  | (v, Some l) :: rest =>
      (v, Some {| width := width l;
                  height := height l;
                  x := Some (left + width l / 2)%float;
                  y := Some (top + height l / 2)%float |})
      :: stack left (top + height l + gap)%float gap rest
  end.

Definition column_layout (g : Graph) : outcome Graph :=
  let left := from_option marginx 0%float (_label g) in
  let top := from_option marginy 0%float (_label g) in
  let gap := from_option ranksep 50%float (_label g) in
  Returns {| _label := _label g;
             _nodes := stack left top gap (_nodes g);
             _edgeObjs := _edgeObjs g |}.

(** The same layout in a library that counts its calls and, every second
    call, leaves a working node of its own in the graph. *)
Definition counting_layout (calls : nat) (g : Graph) : outcome Graph * nat :=
  (g' ← column_layout g;
   Returns (if Nat.even calls then g' else ensureNode "_root" g'),
   S calls).

(** A library whose column starts further right with every call. *)
Definition drifting_layout (left : float) (g : Graph)
  : outcome Graph * float :=
  (Returns {| _label := _label g;
              _nodes := stack left 0%float 50%float (_nodes g);
              _edgeObjs := _edgeObjs g |},
   (left + 1)%float).

End column.

(** ** Sample inputs *)

Definition sample_data (name : string) : NodeData :=
  {| spanId := name;
     operationName := "GET /checkout";
     serviceName := "api";
     duration := 12.5%float;
     startTime := 0%float;
     status := success;
     tags := [("http.status_code", JsNumber 200%float)];
     highlighted := None |}.

Definition sample_node (name : string) : FlowNode :=
  {| node_id := name;
     node_type := "span";
     node_position := {| pos_x := 0%float; pos_y := 0%float |};
     node_data := sample_data name |}.

Definition sample_edge (name source target : string) : FlowEdge :=
  {| edge_id := name;
     edge_source := source;
     edge_target := target;
     edge_data := None;
     edge_animated := None |}.

(** A second node that carries the id [a]. *)
Definition sample_twin : FlowNode :=
  {| node_id := "a";
     node_type := "service";
     node_position := {| pos_x := 1%float; pos_y := 2%float |};
     node_data := sample_data "other" |}.

(** Nodes [a] and [b] and the edge [a -> b], behind the arrays 3 and 5. *)
Definition sample_store : gmap loc object :=
  list_to_map
    [(1%positive, NodeObject (sample_node "a"));
     (2%positive, NodeObject (sample_node "b"));
     (3%positive, NodeArray [1%positive; 2%positive]);
     (4%positive, EdgeObject (sample_edge "e1" "a" "b"));
     (5%positive, EdgeArray [4%positive])].

(** The same values elsewhere, among other objects: the arrays are 20 and
    21. *)
Definition other_store : gmap loc object :=
  list_to_map
    [(7%positive, NodeObject (sample_node "z"));
     (10%positive, NodeObject (sample_node "b"));
     (11%positive, EdgeObject (sample_edge "e1" "a" "b"));
     (12%positive, NodeObject (sample_node "a"));
     (20%positive, NodeArray [12%positive; 10%positive]);
     (21%positive, EdgeArray [11%positive]);
     (22%positive, NodeArray [7%positive])].

(** The store the call on [sample_store] leaves. *)
Definition sample_store_after : gmap loc object :=
  match applyDagreLayout_refs column.column_layout 3%positive 5%positive None
          sample_store with
  | Returns (_, h') => h'
  | Throws _ => sample_store
  end.

(** The path box with [api/items] typed in, and a service that answers
    every request with the trace [t1]. *)
Definition sample_box : RecordButtonState :=
  {| rb_isOpen := true; rb_loading := false; rb_error := None;
     customPath := "api/items" |}.

Definition sample_recorded : RecordResponse :=
  {| response_status := 200%float;
     response_traceId := Some "t1";
     responseBody := None;
     response_error := None |}.

Definition sample_answer : Response RecordResponse :=
  {| ok := true; http_status := 200%float; json := Fulfilled sample_recorded |}.

Definition sample_service (request : RecordRequest)
  : settled (Response RecordResponse) :=
  Fulfilled sample_answer.

(** ** Proof steps *)

#[local] Set Warnings "-clear-no-such-hyp".

(** Run the binds of [outcome] whose argument is known. *)
Ltac run_binds :=
  cbn [mbind outcome_bind mret outcome_ret fst snd].

Tactic Notation "run_binds" "in" "*" :=
  cbn [mbind outcome_bind mret outcome_ret fst snd] in *.

(** ** Facts about the graph operations *)

Module graphlib_facts.
Import graphlib.

Lemma lookup_label_absent v ns :
  v ∉ ns.*1 -> lookup_label v ns = None.
Proof.
  induction ns as [|[w l] ns IH]; simpl; [done|].
  intros Hnot. apply not_elem_of_cons in Hnot as [Hne Hnot].
  destruct (decide (w = v)); [congruence | auto].
Qed.

Lemma lookup_label_replace u v value ns :
  v ∈ ns.*1 ->
  lookup_label u (replace_label v value ns)
  = if decide (u = v) then value else lookup_label u ns.
Proof.
  induction ns as [|[w l] ns IH]; simpl.
  - intros Hin. by apply elem_of_nil in Hin.
  - intros Hin. destruct (decide (w = v)) as [->|Hwv]; simpl.
    + destruct (decide (v = u)) as [->|Hvu].
      * by rewrite decide_True.
      * by rewrite decide_False.
    + apply elem_of_cons in Hin as [Heq|Hin]; [congruence|].
      destruct (decide (w = u)) as [->|Hwu].
      * by rewrite decide_False.
      * by apply IH.
Qed.

Lemma lookup_label_snoc u v value ns :
  v ∉ ns.*1 ->
  lookup_label u (ns ++ [(v, value)])
  = if decide (u = v) then value else lookup_label u ns.
Proof.
  induction ns as [|[w l] ns IH]; simpl.
  - intros _. destruct (decide (v = u)) as [->|Hvu].
    + by rewrite decide_True.
    + by rewrite decide_False.
  - intros Hnot. apply not_elem_of_cons in Hnot as [Hne Hnot].
    destruct (decide (w = u)) as [->|Hwu].
    + by rewrite decide_False.
    + by apply IH.
Qed.

(** [setNode] stores the label under its name and changes no other. *)
Lemma node_setNode g v value u :
  node (setNode v value g) u
  = if decide (u = v) then Some value else node g u.
Proof.
  unfold node, setNode, hasNode; simpl. case_bool_decide as Hin.
  - by apply lookup_label_replace.
  - by apply lookup_label_snoc.
Qed.

(** Creating a missing end point adds a name with an [undefined] label:
    no call of [node] can tell the difference. *)
Lemma node_ensureNode g v u : node (ensureNode v g) u = node g u.
Proof.
  unfold node, ensureNode, hasNode; simpl. case_bool_decide as Hin; [done|].
  rewrite lookup_label_snoc by done.
  destruct (decide (u = v)) as [->|]; [|done].
  symmetry. by apply lookup_label_absent.
Qed.

Lemma node_setEdge g v w u : node (setEdge v w g) u = node g u.
Proof.
  unfold setEdge. destruct (hasEdge g v w); [done|].
  change (node (ensureNode w (ensureNode v g)) u = node g u).
  by rewrite !node_ensureNode.
Qed.

Lemma node_setGraph g label u : node (setGraph label g) u = node g u.
Proof. done. Qed.

Lemma node_empty u : node empty u = None.
Proof. done. Qed.

End graphlib_facts.

Lemma column_lookup_label v l left top gap ns :
  graphlib.lookup_label v ns = Some l ->
  exists l' cx cy,
    graphlib.lookup_label v (column.stack left top gap ns) = Some l'
    /\ graphlib.x l' = Some cx
    /\ graphlib.y l' = Some cy.
Proof.
  revert top. induction ns as [|[w [lw|]] ns IH]; intros top; simpl; [done| |].
  - destruct (decide (w = v)) as [->|Hne].
    + intros _. eexists _, _, _. by repeat split.
    + apply IH.
  - destruct (decide (w = v)) as [->|Hne]; [done | apply IH].
Qed.

Lemma column_layout_assigns_coordinates :
  assigns_coordinates column.column_layout.
Proof.
  intros g. eexists. split; [reflexivity|].
  intros v l Hl. by apply (column_lookup_label v l).
Qed.

(** ** The graph handed to the library *)

Lemma node_foldl_setNode (nodes : list FlowNode) g u :
  graphlib.node
    (foldl (fun g node => graphlib.setNode (node_id node) footprint g) g nodes) u
  = if bool_decide (u ∈ node_id <$> nodes) then Some footprint
    else graphlib.node g u.
Proof.
  revert g. induction nodes as [|n nodes IH]; intros g; simpl; [done|].
  rewrite IH, graphlib_facts.node_setNode.
  destruct (decide (u = node_id n)) as [->|Hne].
  - rewrite (bool_decide_eq_true_2 (node_id n ∈ node_id n :: _)) by left.
    by case_bool_decide.
  - case_bool_decide as Hin.
    + by rewrite bool_decide_eq_true_2 by (by right).
    + rewrite bool_decide_eq_false_2; [done|].
      intros [?|?]%elem_of_cons; done.
Qed.

Lemma node_foldl_setEdge (edges : list FlowEdge) g u :
  graphlib.node
    (foldl (fun g edge =>
              graphlib.setEdge (edge_source edge) (edge_target edge) g) g edges) u
  = graphlib.node g u.
Proof.
  revert g. induction edges as [|e edges IH]; intros g; simpl; [done|].
  by rewrite IH, graphlib_facts.node_setEdge.
Qed.

(** Exactly the input node ids carry a label in the graph given to the
    library, whatever the edges are. *)
Lemma node_build_dagreGraph nodes edges options u :
  graphlib.node (build_dagreGraph nodes edges options) u
  = if bool_decide (u ∈ node_id <$> nodes) then Some footprint else None.
Proof.
  unfold build_dagreGraph. rewrite node_foldl_setEdge.
  by rewrite (node_foldl_setNode nodes).
Qed.

Lemma label_build_dagreGraph nodes edges options :
  graphlib._label (build_dagreGraph nodes edges options)
  = Some {| graphlib.rankdir :=
              default graphlib.TB (direction (default no_options options));
            graphlib.nodesep :=
              default 50%float (nodeSpacing (default no_options options));
            graphlib.ranksep :=
              default 80%float (rankSpacing (default no_options options));
            graphlib.marginx := 20%float;
            graphlib.marginy := 20%float |}.
Proof.
  unfold build_dagreGraph.
  set (step_e := fun g edge => graphlib.setEdge _ _ g).
  set (step_n := fun g node => graphlib.setNode _ _ g).
  set (g0 := graphlib.setGraph _ _).
  assert (Hn : forall (ns : list FlowNode) g,
             graphlib._label (foldl step_n g ns) = graphlib._label g).
  { induction ns as [|n ns IH]; intros g; simpl; [done|]. by rewrite IH. }
  assert (He : forall (es : list FlowEdge) g,
             graphlib._label (foldl step_e g es) = graphlib._label g).
  { induction es as [|e es IH]; intros g; simpl; [done|]. rewrite IH.
    unfold step_e, graphlib.setEdge. by destruct (graphlib.hasEdge _ _ _). }
  by rewrite He, Hn.
Qed.

(** ** The layout call *)

Lemma array_map_cons {A B} (f : A -> outcome B) a rest :
  array_map f (a :: rest)
  = match f a with
    | Returns b =>
        match array_map f rest with
        | Returns bs => Returns (b :: bs)
        | Throws e => Throws e
        end
    | Throws e => Throws e
    end.
Proof. reflexivity. Qed.

Lemma array_map_place g' nodes ns' :
  array_map (place g') nodes = Returns ns' <-> Forall2 (placed_from g') nodes ns'.
Proof.
  revert ns'. induction nodes as [|n nodes IH]; intros ns'.
  - simpl. split.
    + intros [= <-]. constructor.
    + intros H. by inversion H.
  - rewrite array_map_cons. unfold place at 1.
    destruct (graphlib.node g' (node_id n)) as [l|] eqn:Hl.
    + destruct (array_map (place g') nodes) as [bs|err] eqn:Hm.
      * split.
        -- intros [= <-]. constructor; [by exists l | by apply IH].
        -- intros H. inversion H as [|? n' ? ns'' (l' & Hl' & ->) Hrest]; subst.
           apply IH in Hrest. congruence.
      * split; [done|].
        intros H. inversion H as [|? n' ? ns'' _ Hrest]; subst.
        apply IH in Hrest. discriminate.
    + split; [done|].
      intros H. inversion H as [|? n' ? ns'' (l' & Hl' & _) _]. congruence.
Qed.

Section LayoutFacts.

Variable layout : graphlib.Graph -> outcome graphlib.Graph.

(** What a returning call has done. *)
Lemma applyDagreLayout_Returns nodes edges options ns' es' :
  applyDagreLayout layout nodes edges options = Returns (ns', es') <->
  exists g',
    layout (build_dagreGraph nodes edges options) = Returns g'
    /\ Forall2 (placed_from g') nodes ns'
    /\ es' = edges.
Proof.
  unfold applyDagreLayout.
  destruct (layout (build_dagreGraph nodes edges options)) as [g'|err] eqn:Hg;
    run_binds.
  - destruct (array_map (place g') nodes) as [bs|err] eqn:Hm;
      run_binds.
    + split.
      * intros [= <- <-]. exists g'. by rewrite <- array_map_place.
      * intros (g2 & [= <-] & Hall & ->). apply array_map_place in Hall.
        congruence.
    + split; [done|].
      intros (g2 & [= <-] & Hall & _). apply array_map_place in Hall.
      congruence.
  - split; [done|]. by intros (g2 & [=] & _).
Qed.

(** With a library that does its part on the graph of the call, the call
    returns, and every input node comes back with the corner of its
    centre. *)
Lemma applyDagreLayout_total nodes edges options :
  positioned_by layout (build_dagreGraph nodes edges options) ->
  exists g' ns',
    layout (build_dagreGraph nodes edges options) = Returns g'
    /\ applyDagreLayout layout nodes edges options = Returns (ns', edges)
    /\ Forall2 (fun n n' =>
                  exists l' cx cy,
                    graphlib.node g' (node_id n) = Some l'
                    /\ graphlib.x l' = Some cx
                    /\ graphlib.y l' = Some cy
                    /\ n' = with_position n
                              {| pos_x := (cx - NODE_WIDTH / 2)%float;
                                 pos_y := (cy - NODE_HEIGHT / 2)%float |})
               nodes ns'.
Proof.
  intros (g' & Hg' & Hxy).
  assert (Hall : forall n, n ∈ nodes ->
            exists l' cx cy,
              graphlib.node g' (node_id n) = Some l'
              /\ graphlib.x l' = Some cx
              /\ graphlib.y l' = Some cy).
  { intros n Hn. apply (Hxy (node_id n) footprint).
    rewrite node_build_dagreGraph, bool_decide_eq_true_2; [done|].
    by apply list_elem_of_fmap_2. }
  clear Hxy.
  assert (Hex : exists ns',
            Forall2 (fun n n' =>
                  exists l' cx cy,
                    graphlib.node g' (node_id n) = Some l'
                    /\ graphlib.x l' = Some cx
                    /\ graphlib.y l' = Some cy
                    /\ n' = with_position n
                              {| pos_x := (cx - NODE_WIDTH / 2)%float;
                                 pos_y := (cy - NODE_HEIGHT / 2)%float |})
               nodes ns').
  { clear Hg'. induction nodes as [|n ns IH].
    - exists []. constructor.
    - destruct IH as (ns' & IH).
      { intros m Hm. apply Hall. by right. }
      destruct (Hall n) as (l' & cx & cy & Hn & Hx & Hy); [by left|].
      eexists (_ :: ns'). constructor; [|exact IH].
      exists l', cx, cy. by repeat split. }
  destruct Hex as (ns' & Hns'). exists g', ns'.
  split; [exact Hg'|]. split; [|exact Hns'].
  apply applyDagreLayout_Returns. exists g'. split; [exact Hg'|].
  split; [|done].
  eapply Forall2_impl; [exact Hns'|].
  intros n n' (l' & cx & cy & Hn & Hx & Hy & ->).
  exists l'. split; [exact Hn|]. unfold top_left. by rewrite Hx, Hy.
Qed.

End LayoutFacts.

(** ** Edges in the graph handed to the library *)

Lemma foldl_setNode_ids (nodes : list FlowNode) g :
  foldl (fun g node => graphlib.setNode (node_id node) footprint g) g nodes
  = foldl (fun g v => graphlib.setNode v footprint g) g (node_id <$> nodes).
Proof.
  revert g. induction nodes as [|n nodes IH]; intros g; simpl; [done|].
  by rewrite IH.
Qed.

Lemma foldl_setEdge_endpoints (edges : list FlowEdge) g :
  foldl (fun g edge =>
           graphlib.setEdge (edge_source edge) (edge_target edge) g) g edges
  = foldl (fun g p => graphlib.setEdge p.1 p.2 g) g (end_points <$> edges).
Proof.
  revert g. induction edges as [|e edges IH]; intros g; simpl; [done|].
  by rewrite IH.
Qed.

Lemma build_dagreGraph_ids_endpoints nodes edges options :
  build_dagreGraph nodes edges options
  = foldl (fun g p => graphlib.setEdge p.1 p.2 g)
      (foldl (fun g v => graphlib.setNode v footprint g)
         (graphlib.setGraph
            {| graphlib.rankdir :=
                 default graphlib.TB (direction (default no_options options));
               graphlib.nodesep :=
                 default 50%float (nodeSpacing (default no_options options));
               graphlib.ranksep :=
                 default 80%float (rankSpacing (default no_options options));
               graphlib.marginx := 20%float;
               graphlib.marginy := 20%float |} graphlib.empty)
         (node_id <$> nodes))
      (end_points <$> edges).
Proof.
  unfold build_dagreGraph.
  by rewrite foldl_setEdge_endpoints, (foldl_setNode_ids nodes).
Qed.

Lemma hasEdge_setEdge_mono g v w a b :
  graphlib.hasEdge g a b = true ->
  graphlib.hasEdge (graphlib.setEdge v w g) a b = true.
Proof.
  intros Hab. unfold graphlib.setEdge.
  destruct (graphlib.hasEdge g v w) eqn:Hvw; [done|].
  unfold graphlib.hasEdge in *. cbn [graphlib._edgeObjs graphlib.ensureNode].
  apply bool_decide_eq_true. apply bool_decide_eq_true in Hab.
  rewrite fmap_app. apply elem_of_app. by left.
Qed.

Lemma hasEdge_setEdge g v w :
  graphlib.hasEdge (graphlib.setEdge v w g) v w = true.
Proof.
  unfold graphlib.setEdge.
  destruct (graphlib.hasEdge g v w) eqn:Hvw; [done|].
  unfold graphlib.hasEdge. cbn [graphlib._edgeObjs graphlib.ensureNode].
  apply bool_decide_eq_true. rewrite fmap_app. apply elem_of_app. right.
  by apply list_elem_of_singleton.
Qed.

Lemma hasEdge_foldl_setEdge (ps : list (string * string)) g a b :
  graphlib.hasEdge g a b = true \/ (a, b) ∈ ps ->
  graphlib.hasEdge
    (foldl (fun g p => graphlib.setEdge p.1 p.2 g) g ps) a b = true.
Proof.
  revert g. induction ps as [|[v w] ps IH]; intros g; simpl.
  - intros [Hg|Hin]; [done|]. by apply elem_of_nil in Hin.
  - intros [Hg|[[= -> ->]|Hin]%elem_of_cons]; apply IH.
    + left. by apply hasEdge_setEdge_mono.
    + left. apply hasEdge_setEdge.
    + by right.
Qed.


(** ** Edges that name a missing node *)




(** ** Options *)




Lemma build_dagreGraph_defaults nodes edges options :
  build_dagreGraph nodes edges options
  = build_dagreGraph nodes edges
      (Some (with_defaults (default no_options options))).
Proof. reflexivity. Qed.

(** C6: a call without options, or with some of the three fields omitted,
    is the call with top-to-bottom, 50 and 80 put in for what is omitted. *)
Theorem applyDagreLayout_defaults
    (layout : graphlib.Graph -> outcome graphlib.Graph)
    (nodes : list FlowNode) (edges : list FlowEdge) :
  applyDagreLayout layout nodes edges None
  = applyDagreLayout layout nodes edges
      (Some {| direction := Some graphlib.TB;
               nodeSpacing := Some 50%float;
               rankSpacing := Some 80%float |})
  /\ forall options,
      applyDagreLayout layout nodes edges (Some options)
      = applyDagreLayout layout nodes edges (Some (with_defaults options)).
Proof.
  split.
  - unfold applyDagreLayout.
    by rewrite (build_dagreGraph_defaults nodes edges None).
  - intros options. unfold applyDagreLayout.
    by rewrite (build_dagreGraph_defaults nodes edges (Some options)).
Qed.

(** ** The corner of the footprint *)

(** C5: every returned position is the centre the library left in the
    node's label, less half the footprint: 110 of the width 220 on x and 40
    of the height 80 on y.  The call does return when the library returns
    and positions the nodes it was given. *)
Theorem applyDagreLayout_top_left
    (layout : graphlib.Graph -> outcome graphlib.Graph)
    (nodes : list FlowNode) (edges : list FlowEdge)
    (options : option LayoutOptions) :
  NODE_WIDTH = 220%float /\ NODE_HEIGHT = 80%float
  /\ (NODE_WIDTH / 2)%float = 110%float /\ (NODE_HEIGHT / 2)%float = 40%float
  /\ (forall ns' es',
         applyDagreLayout layout nodes edges options = Returns (ns', es') ->
         exists g',
           layout (build_dagreGraph nodes edges options) = Returns g'
           /\ Forall2 (fun n n' =>
                         exists centre,
                           graphlib.node g' (node_id n) = Some centre
                           /\ pos_x (node_position n')
                              = (to_number (graphlib.x centre) - 110)%float
                           /\ pos_y (node_position n')
                              = (to_number (graphlib.y centre) - 40)%float)
                      nodes ns')
  /\ (positioned_by layout (build_dagreGraph nodes edges options) ->
      exists g' ns',
        layout (build_dagreGraph nodes edges options) = Returns g'
        /\ applyDagreLayout layout nodes edges options = Returns (ns', edges)
        /\ Forall2 (fun n n' =>
                      exists cx cy,
                        graphlib.x <$> graphlib.node g' (node_id n)
                        = Some (Some cx)
                        /\ graphlib.y <$> graphlib.node g' (node_id n)
                           = Some (Some cy)
                        /\ node_position n'
                           = {| pos_x := (cx - 110)%float;
                                pos_y := (cy - 40)%float |})
                   nodes ns').
Proof.
  do 4 (split; [reflexivity|]). split.
  - intros ns' es' Hcall.
    apply applyDagreLayout_Returns in Hcall as (g' & Hg' & Hall & _).
    exists g'. split; [exact Hg'|].
    eapply Forall2_impl; [exact Hall|].
    intros n n' (l & Hl & ->). exists l. split; [exact Hl|]. split; reflexivity.
  - intros Hlayout.
    destruct (applyDagreLayout_total layout nodes edges options Hlayout)
      as (g' & ns' & Hg' & Hcall & Hall).
    exists g', ns'. split; [exact Hg'|]. split; [exact Hcall|].
    eapply Forall2_impl; [exact Hall|].
    intros n n' (l' & cx & cy & Hn & Hx & Hy & ->). exists cx, cy.
    rewrite Hn. simpl. rewrite Hx, Hy. by repeat split.
Qed.

Lemma applyDagreLayout_top_left_witness :
  exists g' ns',
    column.column_layout
      (build_dagreGraph [sample_node "a"; sample_node "b"]
         [sample_edge "e1" "a" "b"] None) = Returns g'
    /\ applyDagreLayout column.column_layout
         [sample_node "a"; sample_node "b"] [sample_edge "e1" "a" "b"] None
       = Returns (ns', [sample_edge "e1" "a" "b"])
    /\ Forall2 (fun n n' =>
                  exists cx cy,
                    graphlib.x <$> graphlib.node g' (node_id n) = Some (Some cx)
                    /\ graphlib.y <$> graphlib.node g' (node_id n)
                       = Some (Some cy)
                    /\ node_position n'
                       = {| pos_x := (cx - 110)%float;
                            pos_y := (cy - 40)%float |})
               [sample_node "a"; sample_node "b"] ns'.
Proof.
  apply (applyDagreLayout_top_left column.column_layout
           [sample_node "a"; sample_node "b"] [sample_edge "e1" "a" "b"] None).
  apply column_layout_assigns_coordinates.
Defined.

(** ** The second entry point *)

(** C10: for [d] one of ['TB'] and ['LR'], [getLayoutedElements(nodes,
    edges, d)] is [applyDagreLayout(nodes, edges, { direction: d })]; with
    the direction left out it is the call with ['TB']. *)
Theorem getLayoutedElements_applyDagreLayout
    (layout : graphlib.Graph -> outcome graphlib.Graph)
    (nodes : list FlowNode) (edges : list FlowEdge) :
  (forall d : TBorLR,
      getLayoutedElements layout nodes edges (Some d)
      = applyDagreLayout layout nodes edges
          (Some {| direction := Some (rankdir_of d);
                   nodeSpacing := None;
                   rankSpacing := None |}))
  /\ getLayoutedElements layout nodes edges (Some TB')
     = applyDagreLayout layout nodes edges
         (Some {| direction := Some graphlib.TB;
                  nodeSpacing := None;
                  rankSpacing := None |})
  /\ getLayoutedElements layout nodes edges (Some LR')
     = applyDagreLayout layout nodes edges
         (Some {| direction := Some graphlib.LR;
                  nodeSpacing := None;
                  rankSpacing := None |})
  /\ getLayoutedElements layout nodes edges None
     = getLayoutedElements layout nodes edges (Some TB').
Proof. repeat split. Qed.

(** ** The highlight overlay *)

Lemma includes_nil s : includes [] s = false.
Proof. apply bool_decide_eq_false_2, not_elem_of_nil. Qed.

Lemma js_or_idempotent a b : js_or a (js_or a b) = js_or a b.
Proof. by destruct a. Qed.

Lemma truthy_js_or a b : truthy (js_or a b) = a || truthy b.
Proof. by destruct a. Qed.

Lemma styledNodes_Forall2 nodes highlightedNodes :
  Forall2 (fun n n' =>
             n' = {| rf_id := rf_id n;
                     rf_type := rf_type n;
                     rf_position := rf_position n;
                     rf_data := with_highlighted (rf_data n)
                                  (includes highlightedNodes (rf_id n));
                     rf_rest := rf_rest n |})
          nodes (styledNodes nodes highlightedNodes).
Proof.
  unfold styledNodes. induction nodes as [|n nodes IH]; simpl; by constructor.
Qed.

Lemma styledEdges_Forall2 edges highlightedEdges :
  Forall2 (fun e e' =>
             rfe_id e' = rfe_id e
             /\ rfe_source e' = rfe_source e
             /\ rfe_target e' = rfe_target e
             /\ rfe_rest e' = rfe_rest e
             /\ rfe_animated e'
                = js_or (includes highlightedEdges (rfe_id e)) (rfe_animated e)
             /\ (stroke <$> rfe_style e')
                = Some (Some (if includes highlightedEdges (rfe_id e)
                              then "#d29922" else "#30363d"))
             /\ (strokeWidth <$> rfe_style e')
                = Some (Some (if includes highlightedEdges (rfe_id e)
                              then 3%float else 2%float)))
          edges (styledEdges edges highlightedEdges).
Proof.
  unfold styledEdges. induction edges as [|e edges IH]; simpl; by constructor.
Qed.

(** C7: with nothing highlighted the overlay gives back the same nodes and
    edges, with their identifiers, positions and end points, the
    [highlighted] flag false on every node, no edge emphasised (each has
    the plain stroke) and [animated] as it was. *)
Theorem applyHighlight_empty (nodes : list RFNode) (edges : list RFEdge) :
  Forall2 (fun n n' =>
             rf_id n' = rf_id n
             /\ rf_type n' = rf_type n
             /\ rf_position n' = rf_position n
             /\ rf_rest n' = rf_rest n
             /\ rf_data n' = with_highlighted (rf_data n) false
             /\ highlighted (rf_data n') = Some false)
          nodes (applyHighlight (nodes, edges) [] []).1
  /\ Forall2 (fun e e' =>
                rfe_id e' = rfe_id e
                /\ rfe_source e' = rfe_source e
                /\ rfe_target e' = rfe_target e
                /\ rfe_rest e' = rfe_rest e
                /\ rfe_animated e' = rfe_animated e
                /\ emphasized e' = false
                /\ (stroke <$> rfe_style e') = Some (Some "#30363d")
                /\ (strokeWidth <$> rfe_style e') = Some (Some 2%float))
             edges (applyHighlight (nodes, edges) [] []).2.
Proof.
  split; simpl.
  - eapply Forall2_impl; [apply styledNodes_Forall2|].
    intros n n' ->. by rewrite includes_nil.
  - eapply Forall2_impl; [apply styledEdges_Forall2|].
    intros e e' (Hid & Hs & Ht & Hr & Ha & Hstroke & Hwidth).
    rewrite includes_nil in Ha, Hstroke, Hwidth.
    repeat split; try done.
    unfold emphasized. rewrite Hstroke. by apply bool_decide_eq_false_2.
Qed.

(** X12: With nothing highlighted, the edges as the canvas converted them come
    back exactly as they were. *)
Lemma styledEdges_rfEdges_empty (edges : list FlowEdge) :
  styledEdges (rfEdges edges) [] = rfEdges edges.
Proof.
  unfold styledEdges, rfEdges. rewrite map_map. apply map_ext.
  intros e. cbn beta. cbn [rfe_id rfe_animated rfe_style rfe_rest
                           rfe_source rfe_target].
  by rewrite includes_nil.
Qed.

(** C8: on every edge the overlay's [animated] is [highlighted ||
    edge.animated]: true when the edge id is in the highlighted set or the
    edge was animated already, so an edge that came animated stays so when
    it is not highlighted.  The flag the canvas starts from is the one of
    the graph model's edge. *)
Theorem styledEdges_animated (highlightedEdges : list string) :
  (forall edges : list RFEdge,
      Forall2 (fun e e' =>
                 rfe_animated e'
                 = js_or (includes highlightedEdges (rfe_id e)) (rfe_animated e)
                 /\ truthy (rfe_animated e')
                    = includes highlightedEdges (rfe_id e)
                      || truthy (rfe_animated e)
                 /\ rfe_animated e'
                    = if includes highlightedEdges (rfe_id e) then Some true
                      else rfe_animated e)
              edges (styledEdges edges highlightedEdges))
  /\ (forall edges : list FlowEdge,
         Forall2 (fun e e' =>
                    truthy (rfe_animated e')
                    = includes highlightedEdges (edge_id e)
                      || truthy (edge_animated e))
                 edges (styledEdges (rfEdges edges) highlightedEdges)).
Proof.
  split.
  - intros edges. eapply Forall2_impl; [apply styledEdges_Forall2|].
    intros e e' (_ & _ & _ & _ & Ha & _). rewrite Ha.
    split; [done|]. split; [apply truthy_js_or | done].
  - intros edges. unfold styledEdges, rfEdges. rewrite map_map.
    induction edges as [|e edges IH]; simpl; constructor; [|exact IH].
    apply truthy_js_or.
Qed.

(** C9: decorating twice with the same highlight set is decorating once. *)
Theorem applyHighlight_idempotent (g : list RFNode * list RFEdge)
    (highlightedNodes highlightedEdges : list string) :
  applyHighlight (applyHighlight g highlightedNodes highlightedEdges)
    highlightedNodes highlightedEdges
  = applyHighlight g highlightedNodes highlightedEdges.
Proof.
  destruct g as [nodes edges]. unfold applyHighlight; simpl. f_equal.
  - unfold styledNodes. rewrite map_map. apply map_ext. by intros n.
  - unfold styledEdges. rewrite map_map. apply map_ext.
    intros e. cbn beta. cbn [rfe_id rfe_animated rfe_style rfe_rest
                             rfe_source rfe_target].
    by rewrite js_or_idempotent.
Qed.

(** X11: The overlay never moves a node and never redirects an edge. *)
Lemma applyHighlight_keeps_geometry (g : list RFNode * list RFEdge)
    (highlightedNodes highlightedEdges : list string) :
  map rf_position (applyHighlight g highlightedNodes highlightedEdges).1
  = map rf_position g.1
  /\ map (fun e => (rfe_source e, rfe_target e))
         (applyHighlight g highlightedNodes highlightedEdges).2
     = map (fun e => (rfe_source e, rfe_target e)) g.2.
Proof.
  destruct g as [nodes edges]. unfold applyHighlight, styledNodes, styledEdges.
  simpl. by rewrite !map_map.
Qed.

(** ** The call on references *)

Lemma alloc_spec o h l h' :
  alloc o h = (l, h') -> h !! l = None /\ h' = <[l := o]> h /\ h ⊆ h'.
Proof.
  unfold alloc. cbv zeta. intros [= <- <-].
  assert (Hfresh : h !! fresh (dom h) = None).
  { apply not_elem_of_dom, is_fresh. }
  split; [exact Hfresh|]. split; [done|]. by apply insert_subseteq.
Qed.

Lemma array_map_weaken {A B} (f f' : A -> outcome B) arr bs :
  (forall a b, f a = Returns b -> f' a = Returns b) ->
  array_map f arr = Returns bs -> array_map f' arr = Returns bs.
Proof.
  intros Hff'. revert bs. induction arr as [|a arr IH]; intros bs; [done|].
  rewrite !array_map_cons.
  destruct (f a) as [b|] eqn:Hfa; [|done]. rewrite (Hff' a b Hfa).
  destruct (array_map f arr) as [bs'|] eqn:Hrest; [|done].
  by rewrite (IH bs' eq_refl).
Qed.

Lemma read_node_weaken (h h' : gmap loc object) l n :
  h ⊆ h' -> read_node h l = Returns n -> read_node h' l = Returns n.
Proof.
  unfold read_node. intros Hsub.
  destruct (h !! l) as [o|] eqn:Hl; [|done].
  by rewrite (lookup_weaken h h' l o Hl Hsub).
Qed.

Lemma read_edge_weaken (h h' : gmap loc object) l e :
  h ⊆ h' -> read_edge h l = Returns e -> read_edge h' l = Returns e.
Proof.
  unfold read_edge. intros Hsub.
  destruct (h !! l) as [o|] eqn:Hl; [|done].
  by rewrite (lookup_weaken h h' l o Hl Hsub).
Qed.

(** Objects are only ever added: what could be read before can be read
    after, with the same result. *)
Lemma read_nodes_weaken (h h' : gmap loc object) arr ns :
  h ⊆ h' -> read_nodes h arr = Returns ns -> read_nodes h' arr = Returns ns.
Proof.
  unfold read_nodes. intros Hsub.
  destruct (h !! arr) as [o|] eqn:Harr; [|done].
  rewrite (lookup_weaken h h' arr o Harr Hsub).
  destruct o; try done.
  apply array_map_weaken. intros l n. by apply read_node_weaken.
Qed.

Lemma read_edges_weaken (h h' : gmap loc object) arr es :
  h ⊆ h' -> read_edges h arr = Returns es -> read_edges h' arr = Returns es.
Proof.
  unfold read_edges. intros Hsub.
  destruct (h !! arr) as [o|] eqn:Harr; [|done].
  rewrite (lookup_weaken h h' arr o Harr Hsub).
  destruct o; try done.
  apply array_map_weaken. intros l n. by apply read_edge_weaken.
Qed.

Lemma alloc_nodes_spec ns (h : gmap loc object) ls h' :
  alloc_nodes ns h = (ls, h') ->
  h ⊆ h'
  /\ Forall (fun l => h !! l = None) ls
  /\ array_map (read_node h') ls = Returns ns.
Proof.
  revert h ls h'. induction ns as [|n ns IH]; intros h ls h';
    cbn [alloc_nodes].
  - intros [= <- <-]. by repeat split.
  - destruct (alloc (NodeObject n) h) as [l h1] eqn:Hl.
    destruct (alloc_nodes ns h1) as [ls1 h2] eqn:Hrest.
    intros [= <- <-].
    apply alloc_spec in Hl as (Hfresh & -> & Hsub1).
    destruct (IH _ _ _ Hrest) as (Hsub2 & Hnew & Hread).
    split; [by etrans|]. split.
    + constructor; [exact Hfresh|].
      eapply Forall_impl; [exact Hnew|]. intros l' Hl'. simpl in Hl'.
      destruct (h !! l') as [o|] eqn:Hh; [|done].
      by rewrite (lookup_weaken _ _ l' o Hh Hsub1) in Hl'.
    + rewrite array_map_cons, Hread.
      assert (Hl2 : h2 !! l = Some (NodeObject n)).
      { eapply lookup_weaken; [|exact Hsub2]. apply lookup_insert_eq. }
      unfold read_node. by rewrite Hl2.
Qed.

Section StoreFacts.

Variable layout : graphlib.Graph -> outcome graphlib.Graph.

(** A returning call has read its two arguments, has run the layout on the
    values they lead to, and has only added objects: the new array, which
    leads to the laid-out nodes, and its elements.  The [edges] reference
    comes back as it went in. *)
Lemma applyDagreLayout_refs_Returns nodes edges options
    (h : gmap loc object) layoutedNodes edges' h' :
  applyDagreLayout_refs layout nodes edges options h
  = Returns ((layoutedNodes, edges'), h') ->
  exists ns es ns',
    read_nodes h nodes = Returns ns
    /\ read_edges h edges = Returns es
    /\ applyDagreLayout layout ns es options = Returns (ns', es)
    /\ edges' = edges
    /\ h ⊆ h'
    /\ h !! layoutedNodes = None
    /\ read_nodes h' layoutedNodes = Returns ns'.
Proof.
  unfold applyDagreLayout_refs.
  destruct (read_nodes h nodes) as [ns|] eqn:Hns; [|done].
  destruct (read_edges h edges) as [es|] eqn:Hes; [|done].
  run_binds.
  destruct (applyDagreLayout layout ns es options) as [[ns' es']|] eqn:Hcall;
    [|done].
  run_binds.
  destruct (alloc_nodes ns' h) as [ls h1] eqn:Hls.
  destruct (alloc (NodeArray ls) h1) as [arr h2] eqn:Harr.
  intros [= <- <- <-].
  apply alloc_nodes_spec in Hls as (Hsub1 & _ & Hread).
  apply alloc_spec in Harr as (Hfresh & -> & Hsub2).
  assert (es' = es) as ->.
  { by apply applyDagreLayout_Returns in Hcall as (_ & _ & _ & ->). }
  exists ns, es, ns'. repeat split; try done.
  - by etrans.
  - destruct (h !! arr) as [o|] eqn:Hh; [|done].
    by rewrite (lookup_weaken _ _ arr o Hh Hsub1) in Hfresh.
  - unfold read_nodes. rewrite lookup_insert_eq.
    eapply array_map_weaken; [|exact Hread].
    intros l n. by apply read_node_weaken.
Qed.

(** The call on references computes [applyDagreLayout] of the values its
    arguments lead to, and nothing else of the store matters. *)
Lemma applyDagreLayout_refs_values nodes edges options (h : gmap loc object) :
  result_values (applyDagreLayout_refs layout nodes edges options h)
  = (ns ← read_nodes h nodes;
     es ← read_edges h edges;
     applyDagreLayout layout ns es options).
Proof.
  destruct (applyDagreLayout_refs layout nodes edges options h)
    as [[[arr edges'] h']|err] eqn:Hrun.
  - apply applyDagreLayout_refs_Returns in Hrun
      as (ns & es & ns' & Hns & Hes & Hcall & -> & Hsub & _ & Hread).
    rewrite Hns, Hes. run_binds. rewrite Hcall.
    unfold result_values. rewrite Hread.
    by rewrite (read_edges_weaken h h' edges es Hsub Hes).
  - unfold applyDagreLayout_refs in Hrun. unfold result_values.
    destruct (read_nodes h nodes) as [ns|];
      run_binds in *; [|congruence].
    destruct (read_edges h edges) as [es|];
      run_binds in *; [|congruence].
    destruct (applyDagreLayout layout ns es options) as [[ns' es']|];
      run_binds in *; [|congruence].
    destruct (alloc_nodes ns' h) as [ls h1].
    by destruct (alloc (NodeArray ls) h1) as [arr h2].
Qed.

End StoreFacts.

(** ** Determinism *)

(** Two calls whose arguments lead to the same values end alike whatever
    else the store holds and wherever the arguments live, and a call
    repeated on the store left by a returning call ends as that call did:
    the call reads nothing of the store but its arguments. *)
Lemma applyDagreLayout_refs_store_independent
    (layout : graphlib.Graph -> outcome graphlib.Graph)
    (options : option LayoutOptions)
    (hA hB : gmap loc object) (nodesA edgesA nodesB edgesB : loc) :
  read_nodes hA nodesA = read_nodes hB nodesB ->
  read_edges hA edgesA = read_edges hB edgesB ->
  result_values (applyDagreLayout_refs layout nodesA edgesA options hA)
  = result_values (applyDagreLayout_refs layout nodesB edgesB options hB)
  /\ forall r h',
      applyDagreLayout_refs layout nodesA edgesA options hA = Returns (r, h') ->
      result_values (applyDagreLayout_refs layout nodesA edgesA options h')
      = result_values (applyDagreLayout_refs layout nodesA edgesA options hA).
Proof.
  intros Hnodes Hedges. split.
  - by rewrite !applyDagreLayout_refs_values, Hnodes, Hedges.
  - intros [arr edges'] h' Hrun. rewrite !applyDagreLayout_refs_values.
    apply applyDagreLayout_refs_Returns in Hrun
      as (ns & es & ns' & Hns & Hes & _ & _ & Hsub & _).
    rewrite (read_nodes_weaken hA h' nodesA ns Hsub Hns), Hns.
    by rewrite (read_edges_weaken hA h' edgesA es Hsub Hes), Hes.
Qed.


Lemma applyDagreLayout_in_snd {World : Type}
    (dagre_layout : World -> graphlib.Graph -> outcome graphlib.Graph * World)
    w nodes edges options :
  (applyDagreLayout_in dagre_layout w nodes edges options).2
  = (dagre_layout w (build_dagreGraph nodes edges options)).2.
Proof.
  unfold applyDagreLayout_in. cbv zeta. by destruct (dagre_layout w _).
Qed.







(** The graphs the counting library leaves do differ from call to call,
    and the results of the calls do not. *)
Example counting_layout_sample :
  let g := build_dagreGraph [sample_node "a"; sample_node "b"] [sample_edge "e1" "a" "b"] None in
  (column.counting_layout 0 g).1 <> (column.counting_layout 1 g).1
  /\ (applyDagreLayout_in column.counting_layout 0 [sample_node "a"; sample_node "b"]
        [sample_edge "e1" "a" "b"] None).1
     = (applyDagreLayout_in column.counting_layout 1 [sample_node "a"; sample_node "b"]
          [sample_edge "e1" "a" "b"] None).1.
Proof. cbv zeta. split; [by vm_compute | vm_compute; reflexivity]. Qed.

(** Where the library's centres follow its state, the result of the call
    follows them: the agreement asked of the library cannot be dropped. *)
Example drifting_layout_sample :
  positions_of
    (applyDagreLayout_in column.drifting_layout 0%float [sample_node "a"] []
       None).1
  = Returns [{| pos_x := 0%float; pos_y := 0%float |}]
  /\ positions_of
       (applyDagreLayout_in column.drifting_layout
          (applyDagreLayout_in column.drifting_layout 0%float
             [sample_node "a"] [] None).2
          [sample_node "a"] [] None).1
     = Returns [{| pos_x := 1%float; pos_y := 0%float |}].
Proof. split; vm_compute; reflexivity. Qed.

(** ** What the call leaves alone *)

(** C4: the call returns a new array of new node objects, as many as the
    input has and in the same order, each with the [id], the [type] and the
    [data] of the input node at its place, [position] being the one field
    left; the [edges] reference comes back as it was given and
    leads to the same edges; and every object that existed before the call,
    the input node list and its nodes among them, is as it was.  The call
    does return when the library returns and positions the nodes it was
    given. *)
Theorem applyDagreLayout_refs_frame
    (layout : graphlib.Graph -> outcome graphlib.Graph)
    (options : option LayoutOptions)
    (h : gmap loc object) (nodes edges : loc)
    (ns : list FlowNode) (es : list FlowEdge) :
  read_nodes h nodes = Returns ns ->
  read_edges h edges = Returns es ->
  (forall layoutedNodes edges' h',
      applyDagreLayout_refs layout nodes edges options h
      = Returns ((layoutedNodes, edges'), h') ->
      exists ns',
        read_nodes h' layoutedNodes = Returns ns'
        /\ length ns' = length ns
        /\ Forall2 (fun n n' =>
                      node_id n' = node_id n
                      /\ node_type n' = node_type n
                      /\ node_data n' = node_data n) ns ns'
        /\ edges' = edges
        /\ read_edges h' edges' = Returns es
        /\ h !! layoutedNodes = None
        /\ h ⊆ h'
        /\ read_nodes h' nodes = Returns ns)
  /\ (positioned_by layout (build_dagreGraph ns es options) ->
      exists layoutedNodes h',
        applyDagreLayout_refs layout nodes edges options h
        = Returns ((layoutedNodes, edges), h')).
Proof.
  intros Hns Hes. split.
  - intros arr edges' h' Hrun.
    apply applyDagreLayout_refs_Returns in Hrun
      as (ns0 & es0 & ns' & Hns0 & Hes0 & Hcall & -> & Hsub & Hfresh & Hread).
    assert (ns0 = ns) as -> by congruence.
    assert (es0 = es) as -> by congruence.
    apply applyDagreLayout_Returns in Hcall as (g' & _ & Hall & _).
    exists ns'. split; [exact Hread|].
    split; [symmetry; by eapply Forall2_length|].
    split.
    { eapply Forall2_impl; [exact Hall|].
      intros n n' (l & _ & ->). by repeat split. }
    split; [done|].
    split; [by apply (read_edges_weaken h h')|].
    split; [exact Hfresh|]. split; [exact Hsub|].
    by apply (read_nodes_weaken h h').
  - intros Hlayout.
    destruct (applyDagreLayout_total layout ns es options Hlayout)
      as (g' & ns' & _ & Hcall & _).
    unfold applyDagreLayout_refs. rewrite Hns, Hes.
    run_binds. rewrite Hcall. run_binds.
    destruct (alloc_nodes ns' h) as [ls h1].
    destruct (alloc (NodeArray ls) h1) as [arr h2]. by eauto.
Qed.

Lemma applyDagreLayout_refs_frame_witness :
  exists layoutedNodes h',
    applyDagreLayout_refs column.column_layout 3%positive 5%positive None
      sample_store
    = Returns ((layoutedNodes, 5%positive), h').
Proof.
  apply (applyDagreLayout_refs_frame column.column_layout None sample_store
           3%positive 5%positive
           [sample_node "a"; sample_node "b"] [sample_edge "e1" "a" "b"]).
  - vm_compute. reflexivity.
  - vm_compute. reflexivity.
  - apply column_layout_assigns_coordinates.
Defined.

(** ** Runs on the sample inputs *)

(** A node id given twice keeps one label, a repeated edge is kept once, and
    the end point no node carries gets a name without a label. *)
Example build_dagreGraph_sample :
  let g := build_dagreGraph
             [sample_node "a"; sample_node "b"; sample_node "a"]
             [sample_edge "e1" "a" "ghost"; sample_edge "e2" "a" "ghost";
              sample_edge "e3" "b" "a"] None in
  graphlib._nodes g = [("a", Some footprint); ("b", Some footprint);
                       ("ghost", None)]
  /\ (graphlib._edgeObjs g).*2 = [("a", "ghost"); ("b", "a")].
Proof. vm_compute. split; reflexivity. Qed.

(** The call on the sample store: two new node objects, a new array, and
    the edges reference 5 as it came in. *)
Example applyDagreLayout_refs_sample :
  exists h',
    applyDagreLayout_refs column.column_layout 3%positive 5%positive None
      sample_store
    = Returns ((8%positive, 5%positive), h')
    /\ h' !! 8%positive = Some (NodeArray [6%positive; 7%positive])
    /\ h' !! 6%positive
       = Some (NodeObject (with_position (sample_node "a")
                             {| pos_x := 20%float; pos_y := 20%float |}))
    /\ h' !! 7%positive
       = Some (NodeObject (with_position (sample_node "b")
                             {| pos_x := 20%float; pos_y := 180%float |}))
    /\ h' !! 1%positive = Some (NodeObject (sample_node "a"))
    /\ h' !! 3%positive = Some (NodeArray [1%positive; 2%positive]).
Proof. eexists. vm_compute. repeat split; reflexivity. Qed.

(** A library that left no label behind would end the call with the
    [TypeError] of reading [.x] of [undefined]; one that returned without
    writing coordinates would give [NaN] positions. *)
Example applyDagreLayout_without_labels :
  applyDagreLayout (fun _ => Returns graphlib.empty) [sample_node "a"] [] None
  = Throws (TypeError "Cannot read properties of undefined")
  /\ applyDagreLayout (fun g => Returns g) [sample_node "a"] [] None
     = Returns ([with_position (sample_node "a")
                   {| pos_x := nan; pos_y := nan |}], []).
Proof. vm_compute. split; reflexivity. Qed.

(** An exception of the library ends the call with that exception. *)
Example applyDagreLayout_library_throws :
  applyDagreLayout (fun _ => Throws (LibraryError "boom"))
    [sample_node "a"] [] None
  = Throws (LibraryError "boom").
Proof. reflexivity. Qed.

(** Highlighting [b] on the chain [a -> b -> c] marks [b] and nothing
    else, and moves no node. *)
Example styledNodes_chain :
  let chain := rfNodes [sample_node "a"; sample_node "b"; sample_node "c"] in
  map (fun n => (rf_id n, highlighted (rf_data n))) (styledNodes chain ["b"])
  = [("a", Some false); ("b", Some true); ("c", Some false)]
  /\ map rf_position (styledNodes chain ["b"]) = map rf_position chain.
Proof. vm_compute. split; reflexivity. Qed.

(** An edge that came animated stays animated when another edge is the
    highlighted one. *)
Example styledEdges_keeps_animated :
  let e1 := {| edge_id := "e1"; edge_source := "a"; edge_target := "b";
               edge_data := None; edge_animated := Some true |} in
  map (fun e => (rfe_id e, rfe_animated e, emphasized e))
      (styledEdges (rfEdges [e1; sample_edge "e2" "b" "c";
                             sample_edge "e3" "c" "d"]) ["e2"])
  = [("e1", Some true, false); ("e2", Some true, true); ("e3", None, false)].
Proof. vm_compute. reflexivity. Qed.

(** ** More on the layout call *)

Lemma array_map_place_positions g' (ns1 ns2 : list FlowNode) :
  node_id <$> ns1 = node_id <$> ns2 ->
  match array_map (place g') ns1, array_map (place g') ns2 with
  | Returns r1, Returns r2 => map node_position r1 = map node_position r2
  | Throws e1, Throws e2 => e1 = e2
  | _, _ => False
  end.
Proof.
  revert ns2. induction ns1 as [|n1 ns1 IH]; intros [|n2 ns2] Hids;
    try discriminate; [done|].
  injection Hids as Hid Hids. specialize (IH ns2 Hids).
  assert (Hp : match place g' n1, place g' n2 with
               | Returns a, Returns b => node_position a = node_position b
               | Throws e1, Throws e2 => e1 = e2
               | _, _ => False
               end).
  { unfold place. rewrite <- Hid.
    by destruct (graphlib.node g' (node_id n1)). }
  rewrite !array_map_cons.
  destruct (place g' n1), (place g' n2); try done.
  destruct (array_map (place g') ns1), (array_map (place g') ns2);
    try done.
  simpl. by rewrite Hp, IH.
Qed.

(** X1: The layout looks at node ids and edge end points only: two inputs that
    agree on those give the library the same graph and end with the same
    coordinates (or the same exception), whatever the nodes' data, type and
    previous position and the edges' id, data and animated flag are. *)
Theorem applyDagreLayout_reads_ids_only
    (layout : graphlib.Graph -> outcome graphlib.Graph)
    (options : option LayoutOptions)
    (ns1 ns2 : list FlowNode) (es1 es2 : list FlowEdge) :
  node_id <$> ns1 = node_id <$> ns2 ->
  end_points <$> es1 = end_points <$> es2 ->
  build_dagreGraph ns1 es1 options = build_dagreGraph ns2 es2 options
  /\ positions_of (applyDagreLayout layout ns1 es1 options)
     = positions_of (applyDagreLayout layout ns2 es2 options).
Proof.
  intros Hids Hends.
  assert (Hg : build_dagreGraph ns1 es1 options
               = build_dagreGraph ns2 es2 options).
  { by rewrite !build_dagreGraph_ids_endpoints, Hids, Hends. }
  split; [exact Hg|].
  unfold applyDagreLayout. rewrite Hg.
  destruct (layout (build_dagreGraph ns2 es2 options)) as [g'|]; [|done].
  run_binds. pose proof (array_map_place_positions g' ns1 ns2 Hids) as Hpos.
  destruct (array_map (place g') ns1), (array_map (place g') ns2);
    run_binds; simpl; by try congruence.
Qed.

Lemma applyDagreLayout_reads_ids_only_witness :
  build_dagreGraph [sample_node "a"; sample_node "b"]
    [sample_edge "e1" "a" "b"] None
  = build_dagreGraph
      [with_position (sample_node "a") {| pos_x := 7%float; pos_y := 9%float |};
       sample_node "b"]
      [sample_edge "other" "a" "b"] None
  /\ positions_of
       (applyDagreLayout column.column_layout
          [sample_node "a"; sample_node "b"] [sample_edge "e1" "a" "b"] None)
     = positions_of
         (applyDagreLayout column.column_layout
            [with_position (sample_node "a")
               {| pos_x := 7%float; pos_y := 9%float |};
             sample_node "b"]
            [sample_edge "other" "a" "b"] None).
Proof.
  apply (applyDagreLayout_reads_ids_only column.column_layout None).
  - reflexivity.
  - reflexivity.
Defined.

Lemma array_map_place_Throws g' (nodes : list FlowNode) e :
  array_map (place g') nodes = Throws e <->
  e = TypeError "Cannot read properties of undefined"
  /\ exists n, n ∈ nodes /\ graphlib.node g' (node_id n) = None.
Proof.
  revert e. induction nodes as [|n nodes IH]; intros e.
  - simpl. split; [done|]. intros (_ & n & Hn & _). by apply elem_of_nil in Hn.
  - rewrite array_map_cons. unfold place at 1.
    destruct (graphlib.node g' (node_id n)) as [l|] eqn:Hl.
    + destruct (array_map (place g') nodes) as [bs|e'] eqn:Hrest.
      * split; [done|]. intros (He & m & [->|Hm]%elem_of_cons & Hnone).
        -- congruence.
        -- assert (Returns bs = Throws e) as Habs by (apply IH; eauto).
           discriminate.
      * split.
        -- intros [= ->]. destruct (proj1 (IH e) eq_refl) as (He & m & Hm & Hnone).
           split; [done|]. exists m. split; [by right | done].
        -- intros (-> & m & [->|Hm]%elem_of_cons & Hnone); [congruence|].
           apply IH. by eauto.
    + split.
      * intros [= <-]. split; [done|]. exists n. split; [by left | done].
      * by intros (-> & _).
Qed.

(** X2: The call ends with an exception in two cases only: [dagre.layout] threw,
    and the call ends with that same exception; or the library returned a
    graph in which some input node has no label, and reading its [x] is a
    [TypeError].  Nothing is caught and nothing else is thrown. *)
Theorem applyDagreLayout_Throws
    (layout : graphlib.Graph -> outcome graphlib.Graph)
    (nodes : list FlowNode) (edges : list FlowEdge)
    (options : option LayoutOptions) :
  (forall e,
      layout (build_dagreGraph nodes edges options) = Throws e ->
      applyDagreLayout layout nodes edges options = Throws e)
  /\ (forall g',
         layout (build_dagreGraph nodes edges options) = Returns g' ->
         (exists n, n ∈ nodes /\ graphlib.node g' (node_id n) = None) ->
         exists message,
           applyDagreLayout layout nodes edges options
           = Throws (TypeError message))
  /\ (forall e,
         applyDagreLayout layout nodes edges options = Throws e ->
         layout (build_dagreGraph nodes edges options) = Throws e
         \/ exists g',
             layout (build_dagreGraph nodes edges options) = Returns g'
             /\ (exists message, e = TypeError message)
             /\ exists n, n ∈ nodes /\ graphlib.node g' (node_id n) = None).
Proof.
  unfold applyDagreLayout.
  destruct (layout (build_dagreGraph nodes edges options)) as [g'|e0];
    run_binds.
  - split; [done|]. split.
    + intros g2 [= <-] Hnone. eexists.
      assert (array_map (place g') nodes
              = Throws (TypeError "Cannot read properties of undefined"))
        as -> by (by apply array_map_place_Throws).
      reflexivity.
    + intros e. destruct (array_map (place g') nodes) as [ns'|e1] eqn:Hmap;
        run_binds; [done|].
      intros [= ->]. right. exists g'. split; [done|].
      apply array_map_place_Throws in Hmap as (-> & Hn). by eauto.
  - split; [by intros e [= ->]|]. split; [done|].
    intros e [= ->]. by left.
Qed.

(** X3: With no nodes the call cannot fail on its own: it returns the empty node
    list and the edges as given when the library returns, and ends with the
    library's exception otherwise, whatever the edges name. *)
Theorem applyDagreLayout_no_nodes
    (layout : graphlib.Graph -> outcome graphlib.Graph)
    (edges : list FlowEdge) (options : option LayoutOptions) :
  (forall g',
      layout (build_dagreGraph [] edges options) = Returns g' ->
      applyDagreLayout layout [] edges options = Returns ([], edges))
  /\ (forall e,
         layout (build_dagreGraph [] edges options) = Throws e <->
         applyDagreLayout layout [] edges options = Throws e)
  /\ (forall v, graphlib.node (build_dagreGraph [] edges options) v = None).
Proof.
  split; [|split].
  - intros g' Hg'. unfold applyDagreLayout. by rewrite Hg'.
  - intros e. unfold applyDagreLayout.
    destruct (layout (build_dagreGraph [] edges options)); run_binds;
      split; intros [=]; by subst.
  - intros v. rewrite node_build_dagreGraph.
    by rewrite bool_decide_eq_false_2 by apply not_elem_of_nil.
Qed.

(** X4: Nodes that share an id come back at the same position: the library's
    graph holds one label per id. *)
Theorem applyDagreLayout_same_id_same_position
    (layout : graphlib.Graph -> outcome graphlib.Graph)
    (nodes : list FlowNode) (edges : list FlowEdge)
    (options : option LayoutOptions)
    (ns' : list FlowNode) (es' : list FlowEdge)
    (i j : nat) (n1 n2 m1 m2 : FlowNode) :
  applyDagreLayout layout nodes edges options = Returns (ns', es') ->
  nodes !! i = Some n1 -> nodes !! j = Some n2 ->
  ns' !! i = Some m1 -> ns' !! j = Some m2 ->
  node_id n1 = node_id n2 ->
  node_position m1 = node_position m2.
Proof.
  intros Hcall Hi Hj Hi' Hj' Hid.
  apply applyDagreLayout_Returns in Hcall as (g' & _ & Hall & _).
  destruct (Forall2_lookup_lr _ _ _ i _ _ Hall Hi Hi') as (l1 & Hl1 & ->).
  destruct (Forall2_lookup_lr _ _ _ j _ _ Hall Hj Hj') as (l2 & Hl2 & ->).
  simpl. rewrite Hid in Hl1. congruence.
Qed.

Lemma applyDagreLayout_same_id_same_position_witness :
  node_position
    (with_position (sample_node "a") {| pos_x := 20%float; pos_y := 20%float |})
  = node_position
      (with_position sample_twin {| pos_x := 20%float; pos_y := 20%float |}).
Proof.
  apply (applyDagreLayout_same_id_same_position column.column_layout
           [sample_node "a"; sample_node "b"; sample_twin] [] None
           [with_position (sample_node "a")
              {| pos_x := 20%float; pos_y := 20%float |};
            with_position (sample_node "b")
              {| pos_x := 20%float; pos_y := 180%float |};
            with_position sample_twin
              {| pos_x := 20%float; pos_y := 20%float |}]
           [] 0 2 (sample_node "a") sample_twin).
  - vm_compute. reflexivity.
  - reflexivity.
  - reflexivity.
  - reflexivity.
  - reflexivity.
  - reflexivity.
Defined.

(** *** Repeated edges *)

(** X5: An edge that joins the same two names as an earlier edge of the list
    adds nothing to the library's graph, so the coordinates are those of the
    input without it; the returned edge list still carries it. *)
Theorem applyDagreLayout_repeated_edge
    (layout : graphlib.Graph -> outcome graphlib.Graph)
    (nodes : list FlowNode) (before after : list FlowEdge) (e : FlowEdge)
    (options : option LayoutOptions) :
  end_points e ∈ end_points <$> before ->
  build_dagreGraph nodes (before ++ e :: after) options
  = build_dagreGraph nodes (before ++ after) options
  /\ positions_of (applyDagreLayout layout nodes (before ++ e :: after) options)
     = positions_of (applyDagreLayout layout nodes (before ++ after) options)
  /\ forall ns' es',
      applyDagreLayout layout nodes (before ++ e :: after) options
      = Returns (ns', es') ->
      es' = (before ++ e :: after)%list.
Proof.
  intros Hin.
  assert (Hg : build_dagreGraph nodes (before ++ e :: after) options
               = build_dagreGraph nodes (before ++ after) options).
  { rewrite !build_dagreGraph_ids_endpoints, !fmap_app, fmap_cons, !foldl_app.
    cbn [foldl]. f_equal. unfold graphlib.setEdge at 1.
    rewrite hasEdge_foldl_setEdge; [done|]. right. by destruct (end_points e). }
  split; [exact Hg|]. split.
  - unfold applyDagreLayout. rewrite Hg.
    destruct (layout (build_dagreGraph nodes (before ++ after) options))
      as [g'|]; [|done].
    run_binds. by destruct (array_map (place g') nodes).
  - intros ns' es' Hcall.
    by apply applyDagreLayout_Returns in Hcall as (_ & _ & _ & ->).
Qed.

Lemma applyDagreLayout_repeated_edge_witness :
  build_dagreGraph [sample_node "a"; sample_node "b"]
    ([sample_edge "e1" "a" "b"] ++ sample_edge "e2" "a" "b"
       :: [sample_edge "e3" "b" "a"]) None
  = build_dagreGraph [sample_node "a"; sample_node "b"]
      ([sample_edge "e1" "a" "b"] ++ [sample_edge "e3" "b" "a"]) None
  /\ positions_of
       (applyDagreLayout column.column_layout
          [sample_node "a"; sample_node "b"]
          ([sample_edge "e1" "a" "b"] ++ sample_edge "e2" "a" "b"
             :: [sample_edge "e3" "b" "a"]) None)
     = positions_of
         (applyDagreLayout column.column_layout
            [sample_node "a"; sample_node "b"]
            ([sample_edge "e1" "a" "b"] ++ [sample_edge "e3" "b" "a"]) None)
  /\ forall ns' es',
      applyDagreLayout column.column_layout
        [sample_node "a"; sample_node "b"]
        ([sample_edge "e1" "a" "b"] ++ sample_edge "e2" "a" "b"
           :: [sample_edge "e3" "b" "a"]) None
      = Returns (ns', es') ->
      es' = ([sample_edge "e1" "a" "b"] ++ sample_edge "e2" "a" "b"
               :: [sample_edge "e3" "b" "a"])%list.
Proof.
  apply (applyDagreLayout_repeated_edge column.column_layout).
  left.
Defined.

(** *** Labels *)

(** X6: In the graph handed to the library every input node id carries the
    same label, 220 wide and 80 high, whatever the node holds; a name that
    only edges mention carries none; and the graph's own label has the
    margins 20 and 20. *)
Theorem build_dagreGraph_labels
    (nodes : list FlowNode) (edges : list FlowEdge)
    (options : option LayoutOptions) :
  (forall n, n ∈ nodes ->
     graphlib.node (build_dagreGraph nodes edges options) (node_id n)
     = Some {| graphlib.width := 220%float;
               graphlib.height := 80%float;
               graphlib.x := None;
               graphlib.y := None |})
  /\ (forall v, v ∉ (node_id <$> nodes) ->
        graphlib.node (build_dagreGraph nodes edges options) v = None)
  /\ (graphlib.marginx <$> graphlib._label (build_dagreGraph nodes edges options))
     = Some 20%float
  /\ (graphlib.marginy <$> graphlib._label (build_dagreGraph nodes edges options))
     = Some 20%float.
Proof.
  split; [|split; [|split]].
  - intros n Hn. rewrite node_build_dagreGraph, bool_decide_eq_true_2; [done|].
    by apply list_elem_of_fmap_2.
  - intros v Hv. by rewrite node_build_dagreGraph, bool_decide_eq_false_2.
  - by rewrite label_build_dagreGraph.
  - by rewrite label_build_dagreGraph.
Qed.

(** ** More on the call on references *)

Lemma alloc_nodes_NoDup ns (h : gmap loc object) ls h' :
  alloc_nodes ns h = (ls, h') -> NoDup ls.
Proof.
  revert h ls h'. induction ns as [|n ns IH]; intros h ls h';
    cbn [alloc_nodes].
  - intros [= <- <-]. constructor.
  - destruct (alloc (NodeObject n) h) as [l h1] eqn:Hl.
    destruct (alloc_nodes ns h1) as [ls1 h2] eqn:Hrest.
    intros [= <- <-].
    apply alloc_spec in Hl as (_ & -> & _).
    destruct (alloc_nodes_spec _ _ _ _ Hrest) as (_ & Hnew & _).
    constructor; [|by eapply IH].
    intros Hin. rewrite Forall_forall in Hnew. specialize (Hnew l Hin).
    by rewrite lookup_insert_eq in Hnew.
Qed.

Lemma alloc_nodes_dom ns (h : gmap loc object) ls h' :
  alloc_nodes ns h = (ls, h') -> dom h' = dom h ∪ list_to_set ls.
Proof.
  revert h ls h'. induction ns as [|n ns IH]; intros h ls h';
    cbn [alloc_nodes].
  - intros [= <- <-]. set_solver.
  - destruct (alloc (NodeObject n) h) as [l h1] eqn:Hl.
    destruct (alloc_nodes ns h1) as [ls1 h2] eqn:Hrest.
    intros [= <- <-].
    apply alloc_spec in Hl as (_ & -> & _).
    rewrite (IH _ _ _ Hrest), dom_insert_L. set_solver.
Qed.

(** X7: The node objects a call returns are new and pairwise distinct: none of
    them is an object that existed before the call, an input node in
    particular, and none is the new array itself; so writing into a returned
    node cannot reach the input, nor another returned node. *)
Theorem applyDagreLayout_refs_fresh_nodes
    (layout : graphlib.Graph -> outcome graphlib.Graph)
    (options : option LayoutOptions)
    (h h' : gmap loc object) (nodes edges layoutedNodes edges' : loc) :
  applyDagreLayout_refs layout nodes edges options h
  = Returns ((layoutedNodes, edges'), h') ->
  exists items,
    h' !! layoutedNodes = Some (NodeArray items)
    /\ NoDup items
    /\ Forall (fun l => h !! l = None) items
    /\ (layoutedNodes ∉ items)
    /\ layoutedNodes <> nodes
    /\ dom h' = dom h ∪ list_to_set items ∪ {[layoutedNodes]}.
Proof.
  unfold applyDagreLayout_refs.
  destruct (read_nodes h nodes) as [ns|] eqn:Hns; [|done].
  destruct (read_edges h edges) as [es|] eqn:Hes; [|done].
  run_binds.
  destruct (applyDagreLayout layout ns es options) as [[ns' es']|] eqn:Hcall;
    [|done].
  run_binds.
  destruct (alloc_nodes ns' h) as [ls h1] eqn:Hls.
  destruct (alloc (NodeArray ls) h1) as [arr h2] eqn:Harr.
  intros [= <- <- <-]. exists ls.
  pose proof (alloc_nodes_NoDup _ _ _ _ Hls) as Hnodup.
  pose proof (alloc_nodes_dom _ _ _ _ Hls) as Hdom.
  apply alloc_nodes_spec in Hls as (Hsub1 & Hnew & Hread).
  apply alloc_spec in Harr as (Hfresh & -> & Hsub2).
  split; [apply lookup_insert_eq|]. split; [exact Hnodup|].
  split; [exact Hnew|]. split; [|split].
  - intros Hin. assert (Hin1 : arr ∈ dom h1).
    { rewrite Hdom. set_solver. }
    apply elem_of_dom in Hin1 as [o Ho]. congruence.
  - intros ->. unfold read_nodes in Hns.
    destruct (h !! nodes) as [o|] eqn:Hh; [|done].
    by rewrite (lookup_weaken _ _ nodes o Hh Hsub1) in Hfresh.
  - rewrite dom_insert_L, Hdom. set_solver.
Qed.

Lemma applyDagreLayout_refs_fresh_nodes_witness :
  exists items,
    sample_store_after !! 8%positive = Some (NodeArray items)
    /\ NoDup items
    /\ Forall (fun l => sample_store !! l = None) items
    /\ (8%positive ∉ items)
    /\ 8%positive <> 3%positive
    /\ dom sample_store_after
       = dom sample_store ∪ list_to_set items ∪ {[8%positive]}.
Proof.
  apply (applyDagreLayout_refs_fresh_nodes column.column_layout None
           sample_store sample_store_after 3%positive 5%positive
           8%positive 5%positive).
  vm_compute. reflexivity.
Defined.

(** ** More on the highlight overlay *)

Lemma includes_true arr s : includes arr s = true <-> s ∈ arr.
Proof. apply bool_decide_eq_true. Qed.

(** X8: The overlay marks by id, and by nothing else: a decorated node is
    highlighted exactly when its id is in the highlighted-node list, whatever
    flag its data came with; a decorated edge is emphasised (highlight stroke,
    width 3) exactly when its id is in the highlighted-edge list, whatever
    style it came with. *)
Theorem applyHighlight_marks_by_id
    (g : list RFNode * list RFEdge)
    (highlightedNodes highlightedEdges : list string) :
  Forall (fun n' =>
            truthy (highlighted (rf_data n')) = true
            <-> rf_id n' ∈ highlightedNodes)
         (applyHighlight g highlightedNodes highlightedEdges).1
  /\ Forall (fun e' =>
               (emphasized e' = true <-> rfe_id e' ∈ highlightedEdges)
               /\ ((strokeWidth <$> rfe_style e') = Some (Some 3%float)
                   <-> rfe_id e' ∈ highlightedEdges))
            (applyHighlight g highlightedNodes highlightedEdges).2.
Proof.
  destruct g as [nodes edges]. unfold applyHighlight, styledNodes, styledEdges.
  cbn [fst snd]. split.
  - apply Forall_forall. intros n' Hn'.
    apply list_elem_of_In, in_map_iff in Hn' as (n & <- & _).
    cbn [rf_data rf_id with_highlighted highlighted truthy default].
    apply includes_true.
  - apply Forall_forall. intros e' He'.
    apply list_elem_of_In, in_map_iff in He' as (e & <- & _).
    unfold emphasized. cbn [rfe_style rfe_id fmap option_fmap option_map stroke
                            strokeWidth].
    rewrite <- includes_true.
    destruct (includes highlightedEdges (rfe_id e)); split; split;
      try done; intros Habs; discriminate.
Qed.

(** X9: Only the ids of the graph count: two highlight lists that contain the
    same node ids and edge ids of the graph give the same decoration.  The
    order of a list, repetitions in it and ids that match nothing make no
    difference. *)
Theorem applyHighlight_ids_of_graph
    (g : list RFNode * list RFEdge)
    (nodes1 edges1 nodes2 edges2 : list string) :
  (forall n, n ∈ g.1 -> rf_id n ∈ nodes1 <-> rf_id n ∈ nodes2) ->
  (forall e, e ∈ g.2 -> rfe_id e ∈ edges1 <-> rfe_id e ∈ edges2) ->
  applyHighlight g nodes1 edges1 = applyHighlight g nodes2 edges2.
Proof.
  destruct g as [nodes edges]. cbn [fst snd]. intros Hnodes Hedges.
  unfold applyHighlight, styledNodes, styledEdges. cbn [fst snd]. f_equal.
  - apply map_ext_in. intros n Hn%list_elem_of_In.
    by rewrite (bool_decide_ext _ _ (Hnodes n Hn) : includes nodes1 (rf_id n)
                                                   = includes nodes2 (rf_id n)).
  - apply map_ext_in. intros e He%list_elem_of_In.
    by rewrite (bool_decide_ext _ _ (Hedges e He) : includes edges1 (rfe_id e)
                                                   = includes edges2 (rfe_id e)).
Qed.

Lemma applyHighlight_ids_of_graph_witness :
  applyHighlight
    (rfNodes [sample_node "a"; sample_node "b"], rfEdges [sample_edge "e1" "a" "b"])
    ["b"; "nowhere"; "b"] ["e1"]
  = applyHighlight
      (rfNodes [sample_node "a"; sample_node "b"],
       rfEdges [sample_edge "e1" "a" "b"])
      ["b"] ["ghost"; "e1"].
Proof.
  apply (applyHighlight_ids_of_graph
           (rfNodes [sample_node "a"; sample_node "b"],
            rfEdges [sample_edge "e1" "a" "b"])).
  - intros n Hn. vm_compute in Hn.
    apply elem_of_cons in Hn as [->|Hn];
      [|apply elem_of_cons in Hn as [->|Hn]; [|by apply elem_of_nil in Hn]];
      simpl; rewrite !elem_of_cons; split; intros H;
      repeat (destruct H as [H|H]; try discriminate H; auto);
      try (by apply elem_of_nil in H).
  - intros e He. vm_compute in He.
    apply elem_of_cons in He as [->|He]; [|by apply elem_of_nil in He].
    simpl. rewrite !elem_of_cons. split; intros _; auto.
Defined.

(** X10: Decorating a decorated graph with another highlight set: on nodes, and
    on the stroke of edges, the later set replaces the earlier one; the
    [animated] flag of an edge does not go back, it stays true once an
    earlier set has turned it on. *)
Theorem applyHighlight_twice
    (nodes : list RFNode) (edges : list RFEdge)
    (nodes1 edges1 nodes2 edges2 : list string) :
  styledNodes (styledNodes nodes nodes1) nodes2 = styledNodes nodes nodes2
  /\ Forall2 (fun once twice =>
                rfe_id twice = rfe_id once
                /\ rfe_source twice = rfe_source once
                /\ rfe_target twice = rfe_target once
                /\ rfe_style twice = rfe_style once
                /\ rfe_rest twice = rfe_rest once
                /\ truthy (rfe_animated twice)
                   = includes edges1 (rfe_id once) || truthy (rfe_animated once))
             (styledEdges edges edges2)
             (styledEdges (styledEdges edges edges1) edges2).
Proof.
  split.
  - unfold styledNodes. rewrite map_map. apply map_ext. by intros n.
  - unfold styledEdges. rewrite map_map.
    induction edges as [|e edges IH]; cbn [map]; constructor; [|exact IH].
    cbn [rfe_id rfe_source rfe_target rfe_style rfe_rest rfe_animated].
    repeat split.
    destruct (includes edges2 (rfe_id e)), (includes edges1 (rfe_id e)),
      (rfe_animated e) as [[]|]; reflexivity.
Qed.

(** ** The canvas from data to [<ReactFlow>] *)

Lemma rfNodes_Forall2 (nodes : list FlowNode) :
  Forall2 (fun n rn =>
             rf_id rn = node_id n
             /\ rf_type rn = type_or_span (node_type n)
             /\ rf_position rn = node_position n
             /\ rf_data rn = node_data n)
          nodes (rfNodes nodes).
Proof.
  unfold rfNodes. induction nodes as [|n nodes IH]; simpl; by constructor.
Qed.

(** X13: Without data the canvas shows its empty state and holds no nodes and no
    edges.  With data whose layout returns, what [<ReactFlow>] gets is one
    node per node of the data, in order: same id, the type or ['span'] when
    the type is empty, the position the layout computed, and the data with
    [highlighted] set from the highlighted-node list; and one edge per edge
    of the data, in order, with its id and end points.  An exception of the
    layout goes through uncaught. *)
Theorem FlowCanvas_elements
    (layout : graphlib.Graph -> outcome graphlib.Graph)
    (highlightedNodes highlightedEdges : list string) :
  FlowCanvas layout None highlightedNodes highlightedEdges = Returns None
  /\ canvas_elements layout None = Returns ([], [])
  /\ forall data,
      match applyDagreLayout layout (graph_nodes data) (graph_edges data) None
      with
      | Throws e =>
          FlowCanvas layout (Some data) highlightedNodes highlightedEdges
          = Throws e
      | Returns (layoutedNodes, _) =>
          exists ns es,
            FlowCanvas layout (Some data) highlightedNodes highlightedEdges
            = Returns (Some (ns, es))
            /\ Forall2 (fun n rn =>
                          rf_id rn = node_id n
                          /\ rf_type rn = type_or_span (node_type n)
                          /\ rf_type rn <> ""
                          /\ rf_data rn
                             = with_highlighted (node_data n)
                                 (includes highlightedNodes (node_id n)))
                       (graph_nodes data) ns
            /\ map rf_position ns = map node_position layoutedNodes
            /\ Forall2 (fun e re =>
                          rfe_id re = edge_id e
                          /\ rfe_source re = edge_source e
                          /\ rfe_target re = edge_target e
                          /\ (emphasized re = true
                              <-> edge_id e ∈ highlightedEdges))
                       (graph_edges data) es
      end.
Proof.
  split; [done|]. split; [done|]. intros data.
  destruct (applyDagreLayout layout (graph_nodes data) (graph_edges data) None)
    as [[ns' es']|e] eqn:Hcall; unfold FlowCanvas, canvas_elements;
    rewrite Hcall; run_binds; [|done].
  apply applyDagreLayout_Returns in Hcall as (g' & _ & Hall & ->).
  eexists _, _. split; [reflexivity|]. split; [|split].
  - unfold styledNodes, rfNodes. rewrite map_map.
    induction Hall as [|n n' ns ns'' (l & _ & ->) _ IH]; simpl;
      constructor; [|exact IH].
    repeat split. unfold type_or_span. by case_decide.
  - unfold styledNodes, rfNodes. by rewrite !map_map.
  - unfold styledEdges, rfEdges. rewrite map_map.
    induction (graph_edges data) as [|e es IH]; simpl; constructor; [|exact IH].
    repeat split; unfold emphasized;
      cbn [rfe_style rfe_id fmap option_fmap option_map stroke];
      rewrite <- includes_true;
      destruct (includes highlightedEdges (edge_id e)); done.
Qed.

(** X14: The colour of a node on the minimap, for a decorated node: the error
    colour for an error span whether highlighted or not, else the highlight
    colour exactly when its id is in the highlighted-node list. *)
Theorem nodeColor_styledNodes
    (nodes : list RFNode) (highlightedNodes : list string) :
  Forall2 (fun n n' =>
             nodeColor n'
             = match status (rf_data n) with
               | error => "#f85149"
               | success =>
                   if includes highlightedNodes (rf_id n) then "#d29922"
                   else "#30363d"
               end)
          nodes (styledNodes nodes highlightedNodes).
Proof.
  unfold styledNodes. induction nodes as [|n nodes IH]; simpl;
    constructor; [|exact IH].
  unfold nodeColor. cbn [rf_data rf_id with_highlighted status highlighted].
  destruct (status (rf_data n)); [|done].
  by destruct (includes highlightedNodes (rf_id n)).
Qed.

(** ** The span node *)

(** X15: The class of a span node is [span-node], then [error] for an error
    span, then [highlighted] for a highlighted one, separated by single
    spaces and with no empty entry left; on a decorated node the last one is
    there exactly when the node's id is in the highlighted-node list. *)
Theorem classNames_styledNodes
    (nodes : list RFNode) (highlightedNodes : list string) :
  (forall data,
      classNames data
      = "span-node"
          ++ (match status data with error => " error" | success => "" end)
          ++ (if truthy (highlighted data) then " highlighted" else ""))
  /\ Forall2 (fun n n' =>
                classNames (rf_data n')
                = "span-node"
                    ++ (match status (rf_data n) with
                        | error => " error"
                        | success => ""
                        end)
                    ++ (if includes highlightedNodes (rf_id n)
                        then " highlighted" else ""))
             nodes (styledNodes nodes highlightedNodes).
Proof.
  assert (Hclass : forall data,
      classNames data
      = "span-node"
          ++ (match status data with error => " error" | success => "" end)
          ++ (if truthy (highlighted data) then " highlighted" else "")).
  { intros data. unfold classNames.
    by destruct (status data), (truthy (highlighted data)). }
  split; [exact Hclass|].
  unfold styledNodes. induction nodes as [|n nodes IH]; simpl;
    constructor; [|exact IH].
  by rewrite Hclass.
Qed.

(** ** The details panel *)

(** X16: The tags the panel lists are the tags of the span whose key starts with
    neither [otel.] nor [telemetry.]: every other tag is listed, with its
    value, in the order of the span's tags, and none is listed twice that
    is not there twice.  Highlighting a node does not change them. *)
Theorem displayTags_spec (node : NodeData) :
  (forall key value,
      (key, value) ∈ displayTags node <->
      (key, value) ∈ tags node
      /\ startsWith key "otel." = false /\ startsWith key "telemetry." = false)
  /\ sublist (displayTags node) (tags node)
  /\ (forall flag, displayTags (with_highlighted node flag) = displayTags node).
Proof.
  split; [|split].
  - intros key value. unfold displayTags.
    rewrite !list_elem_of_In, filter_In.
    destruct (startsWith key "otel."), (startsWith key "telemetry."); simpl;
      intuition congruence.
  - unfold displayTags. induction (tags node) as [|[key value] rest IH];
      simpl; [constructor|].
    destruct (negb (startsWith key "otel.") && negb (startsWith key "telemetry."));
      by constructor.
  - done.
Qed.

(** ** The record button *)

Lemma startsWith_slash_cons s : startsWith ("/" ++ s) "/" = true.
Proof. unfold startsWith. simpl. by destruct s. Qed.

(** X17: The menu of a running repository is never empty: it lists the
    repository's own endpoints, each labelled with its path and in their
    order, and the four common ones when the repository has none (or there
    is no repository). *)
Theorem repoEndpoints_spec (activeRepo : option RepoInfo) :
  repoEndpoints activeRepo <> []
  /\ match endpoints <$> activeRepo with
     | Some (first :: others) =>
         map endpoint_path (repoEndpoints activeRepo) = first :: others
         /\ map endpoint_label (repoEndpoints activeRepo) = first :: others
     | _ =>
         map endpoint_path (repoEndpoints activeRepo)
         = ["/"; "/health"; "/api"; "/api/health"]
     end.
Proof.
  split.
  - destruct activeRepo as [repo|]; [|done]. unfold repoEndpoints.
    by destruct (endpoints repo).
  - destruct activeRepo as [repo|]; [|done]. unfold repoEndpoints. simpl.
    destruct (endpoints repo) as [|first others] eqn:Hends; [done|].
    rewrite !map_map. cbn [endpoint_path endpoint_label].
    by rewrite !map_id.
Qed.

(** X18: A recording always ends with the menu closed and the spinner off, and
    with exactly one of two things: [onRecordComplete] called once, with the
    non-empty trace id of the answer, and no error; or no call and an error
    message.  An answer that is not [ok] gives ['Failed to record
    request']; an answer with neither error nor trace id gives the
    "No trace ID" message. *)
Theorem handleRecord_outcome
    (network : RecordRequest -> settled (Response RecordResponse))
    (path : string) (repoId : option string) (st : RecordButtonState) :
  let '(st', completed) := handleRecord network path repoId st in
  rb_loading st' = false
  /\ rb_isOpen st' = false
  /\ customPath st' = customPath st
  /\ ((exists traceId,
          completed = [traceId] /\ traceId <> "" /\ rb_error st' = None
          /\ exists response result,
              network {| method := "GET"; path := path; body := None;
                         request_repoId := repoId |} = Fulfilled response
              /\ ok response = true /\ json response = Fulfilled result
              /\ response_traceId result = Some traceId
              /\ nonempty (response_error result) = false)
      \/ (completed = [] /\ exists message, rb_error st' = Some message))
  /\ (forall response,
         network {| method := "GET"; path := path; body := None;
                    request_repoId := repoId |} = Fulfilled response ->
         ok response = false ->
         completed = [] /\ rb_error st' = Some "Failed to record request").
Proof.
  unfold handleRecord, recordRequest, json_or_throw.
  destruct (network _) as [response|reason] eqn:Hnet.
  - destruct (ok response) eqn:Hok.
    + destruct (json response) as [result|reason] eqn:Hjson.
      * destruct (nonempty (response_error result)) eqn:Herr.
        -- cbn. repeat split; try done; try (intros; simplify_eq; congruence).
           right. split; [done|]. unfold nonempty in Herr.
           destruct (response_error result); [by eauto | done].
        -- destruct (nonempty (response_traceId result)) eqn:Htrace.
           ++ cbn. repeat split; try done;
                try (intros; simplify_eq; congruence).
              left. unfold nonempty in Htrace.
              destruct (response_traceId result) as [t|] eqn:Ht; [|done].
              apply bool_decide_eq_true in Htrace.
              exists t. repeat split; try done.
              exists response, result. by rewrite Ht.
           ++ cbn. repeat split; try done;
                try (intros; simplify_eq; congruence).
              right. by eauto.
      * cbn. repeat split; try done; try (intros; simplify_eq; congruence).
        right. by eauto.
    + cbn. repeat split; try done; try (intros; simplify_eq; congruence).
      right. by eauto.
  - cbn. repeat split; try done; try (intros; simplify_eq; congruence).
    right. by eauto.
Qed.

(** X19: What is typed in the path box is recorded only when it is more than
    white space, and then as a path that starts with a slash: the text
    itself when it starts with one, the text with a slash in front when it
    does not (the text is not trimmed).  One request is made, a [GET]
    without body for that path and the active repository's id, and what
    the handler ends with is what [handleRecord] ends with for the answer
    to it, with the box emptied: the trace id passed on when the answer has
    one and no error, a message otherwise. *)
Theorem handleCustomRecord_spec
    (trim : string -> string)
    (network : RecordRequest -> settled (Response RecordResponse))
    (activeRepo : option RepoInfo) (st : RecordButtonState) :
  let request :=
    {| method := "GET"; path := custom_path (customPath st); body := None;
       request_repoId := repoId <$> activeRepo |} in
  let closed message :=
    {| rb_isOpen := false; rb_loading := false; rb_error := message;
       customPath := "" |} in
  let run := handleCustomRecord trim network activeRepo st in
  startsWith (custom_path (customPath st)) "/" = true
  /\ custom_path (custom_path (customPath st)) = custom_path (customPath st)
  /\ (startsWith (customPath st) "/" = true -> custom_path (customPath st) = customPath st)
  /\ (startsWith (customPath st) "/" = false -> custom_path (customPath st) = "/" ++ customPath st)
  /\ (trim (customPath st) = "" -> run = (st, []))
  /\ (trim (customPath st) <> "" ->
      run = (closed (rb_error (handleRecord network (custom_path (customPath st))
                                 (repoId <$> activeRepo) st).1),
             (handleRecord network (custom_path (customPath st))
                (repoId <$> activeRepo) st).2)
      /\ (forall reason,
             network request = Rejected reason ->
             run = (closed (Some (message_or "Failed to record" reason)), []))
      /\ (forall response,
             network request = Fulfilled response -> ok response = false ->
             run = (closed (Some "Failed to record request"), []))
      /\ (forall response reason,
             network request = Fulfilled response -> ok response = true ->
             json response = Rejected reason ->
             run = (closed (Some (message_or "Failed to record" reason)), []))
      /\ (forall response result,
             network request = Fulfilled response -> ok response = true ->
             json response = Fulfilled result ->
             (nonempty (response_error result) = true ->
              run = (closed (response_error result), []))
             /\ (forall traceId,
                    nonempty (response_error result) = false ->
                    response_traceId result = Some traceId -> traceId <> "" ->
                    run = (closed None, [traceId]))
             /\ (nonempty (response_error result) = false ->
                 nonempty (response_traceId result) = false ->
                 run = (closed
                          (Some "No trace ID returned. The trace may take a moment to appear."),
                        [])))
      /\ customPath run.1 = ""
      /\ (forall other : RecordRequest -> settled (Response RecordResponse),
             network request = other request ->
             run = handleCustomRecord trim other activeRepo st)).
Proof.
  cbv zeta.
  assert (Hslash : forall p, startsWith (custom_path p) "/" = true).
  { intros p. unfold custom_path. destruct (startsWith p "/") eqn:Hp; [done|].
    apply startsWith_slash_cons. }
  split; [apply Hslash|]. split; [|split; [|split; [|split]]].
  - unfold custom_path at 1. by rewrite Hslash.
  - intros Hp. unfold custom_path. by rewrite Hp.
  - intros Hp. unfold custom_path. by rewrite Hp.
  - intros Hblank. unfold handleCustomRecord.
    by rewrite Hblank, bool_decide_eq_false_2 by (intros H; by apply H).
  - intros Hfilled. unfold handleCustomRecord.
    rewrite bool_decide_eq_true_2 by done.
    unfold handleRecord, recordRequest, json_or_throw.
    split; [|split; [|split; [|split; [|split; [|split]]]]].
    + by destruct (network _) as [response|reason];
        [destruct (ok response);
         [destruct (json response) as [result|reason];
          [destruct (nonempty (response_error result));
           [|destruct (nonempty (response_traceId result))]|]|]|].
    + by intros reason ->.
    + by intros response -> ->.
    + by intros response reason -> -> ->.
    + intros response result -> -> ->. split; [|split].
      * by intros ->.
      * intros traceId -> Htrace Hfull. rewrite Htrace.
        by rewrite (bool_decide_eq_true_2 _ Hfull : nonempty (Some traceId) = true).
      * by intros -> ->.
    + by destruct (network _) as [response|reason];
        [destruct (ok response);
         [destruct (json response) as [result|reason];
          [destruct (nonempty (response_error result));
           [|destruct (nonempty (response_traceId result))]|]|]|].
    + intros other Hsame. by rewrite Hsame.
Qed.

Lemma handleCustomRecord_spec_witness :
  handleCustomRecord (fun s => s) sample_service None sample_box
  = ({| rb_isOpen := false; rb_loading := false; rb_error := None;
        customPath := "" |}, ["t1"])
  /\ custom_path "api/items" = "/api/items".
Proof.
  pose proof (handleCustomRecord_spec (fun s => s) sample_service None
                sample_box) as Hspec.
  cbv zeta in Hspec.
  destruct Hspec as (_ & _ & _ & Hpath & _ & Hrun). split.
  - destruct Hrun as (_ & _ & _ & _ & Hanswer & _); [simpl; discriminate|].
    destruct (Hanswer sample_answer sample_recorded eq_refl eq_refl eq_refl)
      as (_ & Htrace & _).
    apply (Htrace "t1"); [reflexivity|reflexivity|discriminate].
  - apply Hpath. reflexivity.
Defined.
(** ** The repository input *)

Lemma pollStatus_frame answers st :
  url (polled_state (pollStatus answers st)) = url st
  /\ ri_loading (polled_state (pollStatus answers st)) = ri_loading st.
Proof.
  revert st. induction answers as [|answer later IH]; intros st; [done|].
  cbn [pollStatus]. destruct (getRepo answer) as [result|err]; [|done].
  destruct (repo_status result); try done; apply (IH (setRepo result st)).
Qed.

(** X20: Polling announces a repository at most once, and only one that is ready
    or running: [onRepoReady] gets the repository of the last answer, which
    is also the one left in the state, and no further poll is scheduled
    after it.  Polling never touches the url box or the spinner. *)
Theorem pollStatus_announces_once
    (answers : list (settled (Response RepoInfo))) (st : RepoInputState) :
  match polled_ready (pollStatus answers st) with
  | [] => True
  | [announced] =>
      (repo_status announced = ready \/ repo_status announced = running)
      /\ repo (polled_state (pollStatus answers st)) = Some announced
      /\ polled_pending (pollStatus answers st) = false
      /\ exists before, exists last,
          answers = (before ++ last :: drop (S (length before)) answers)%list
          /\ getRepo last = Fulfilled announced
          /\ forallb transient before = true
  | _ :: _ :: _ => False
  end
  /\ url (polled_state (pollStatus answers st)) = url st
  /\ ri_loading (polled_state (pollStatus answers st)) = ri_loading st.
Proof.
  split; [|apply pollStatus_frame].
  revert st. induction answers as [|answer later IH]; intros st; [done|].
  cbn [pollStatus]. destruct (getRepo answer) as [result|err] eqn:Hget;
    [|done].
  destruct (repo_status result) eqn:Hstatus; cbn [polled_ready polled_state
    polled_pending]; try done.
  - specialize (IH (setRepo result st)).
    destruct (polled_ready (pollStatus later (setRepo result st)))
      as [|announced [|]]; try done.
    destruct IH as (Hst & Hrepo & Hpending & before & last & Heq & Hlast & Hall).
    repeat split; try done.
    exists (answer :: before), last. split; [|split; [done|]].
    + cbn [length drop app]. by rewrite <- Heq.
    + cbn [forallb]. unfold transient at 1. by rewrite Hget, Hstatus.
  - repeat split; auto. exists [], answer. by repeat split.
  - specialize (IH (setRepo result st)).
    destruct (polled_ready (pollStatus later (setRepo result st)))
      as [|announced [|]]; try done.
    destruct IH as (Hst & Hrepo & Hpending & before & last & Heq & Hlast & Hall).
    repeat split; try done.
    exists (answer :: before), last. split; [|split; [done|]].
    + cbn [length drop app]. by rewrite <- Heq.
    + cbn [forallb]. unfold transient at 1. by rewrite Hget, Hstatus.
  - repeat split; auto. exists [], answer. by repeat split.
Qed.

(** X21: Polling goes on exactly as long as the answers say analysing or
    building, without any limit on their number; the first other answer (a
    final status, or a failed request) ends it, and what the network would
    answer after that is never asked for. *)
Theorem pollStatus_stops
    (answers : list (settled (Response RepoInfo))) (st : RepoInputState) :
  polled_pending (pollStatus answers st) = forallb transient answers
  /\ (forallb transient answers = true ->
      polled_ready (pollStatus answers st) = [])
  /\ (forall before last after,
         answers = (before ++ last :: after)%list ->
         transient last = false ->
         pollStatus answers st = pollStatus (before ++ [last]) st).
Proof.
  split; [|split].
  - revert st. induction answers as [|answer later IH]; intros st; [done|].
    cbn [pollStatus forallb]. unfold transient at 1.
    destruct (getRepo answer) as [result|err]; [|done].
    destruct (repo_status result); try done; apply IH.
  - revert st. induction answers as [|answer later IH]; intros st; [done|].
    cbn [pollStatus forallb]. unfold transient at 1.
    destruct (getRepo answer) as [result|err]; [|done].
    destruct (repo_status result); try done; apply IH.
  - intros before last after -> Hlast. revert st.
    induction before as [|answer before IH]; intros st.
    + cbn [app pollStatus]. unfold transient in Hlast.
      destruct (getRepo last) as [result|err]; [|done].
      by destruct (repo_status result).
    + cbn [app pollStatus].
      destruct (getRepo answer) as [result|err]; [|done].
      destruct (repo_status result); try done; apply IH.
Qed.

(** X22: Analysing needs a url that is more than white space; otherwise nothing
    happens.  It ends with the spinner off.  A failed request leaves its
    message and the repository as it was.  An answer that is still
    "analyzing" starts the polling; any other answer, "ready" and "running"
    included, is stored without [onRepoReady] being called. *)
Theorem handleAnalyze_spec
    (trim : string -> string)
    (analysis : settled (Response RepoInfo))
    (answers : list (settled (Response RepoInfo))) (st : RepoInputState) :
  (trim (url st) = "" ->
   handleAnalyze trim analysis answers st
   = {| polled_state := st; polled_ready := []; polled_pending := false |})
  /\ (trim (url st) <> "" ->
      ri_loading (polled_state (handleAnalyze trim analysis answers st)) = false
      /\ url (polled_state (handleAnalyze trim analysis answers st)) = url st
      /\ match analyzeRepo analysis with
         | Rejected err =>
             handleAnalyze trim analysis answers st
             = {| polled_state :=
                    {| url := url st; ri_loading := false;
                       ri_error := Some (message_or "Failed to analyze repo" err);
                       repo := repo st |};
                  polled_ready := [];
                  polled_pending := false |}
         | Fulfilled result =>
             match repo_status result with
             | analyzing =>
                 handleAnalyze trim analysis answers st
                 = pollStatus answers
                     {| url := url st; ri_loading := false; ri_error := None;
                        repo := Some result |}
             | _ =>
                 handleAnalyze trim analysis answers st
                 = {| polled_state :=
                        {| url := url st; ri_loading := false;
                           ri_error := None; repo := Some result |};
                      polled_ready := [];
                      polled_pending := false |}
             end
         end).
Proof.
  split.
  - intros Hblank. unfold handleAnalyze.
    by rewrite Hblank, bool_decide_eq_false_2 by (intros H; by apply H).
  - intros Hurl. unfold handleAnalyze. rewrite bool_decide_eq_true_2 by done.
    destruct (analyzeRepo analysis) as [result|err]; [|done].
    destruct (repo_status result); try done.
    match goal with
    | |- context [pollStatus answers ?st0] =>
        destruct (pollStatus_frame answers st0) as [Hurl' Hloading]
    end.
    by rewrite Hurl', Hloading.
Qed.

(** X23: Starting needs a repository; without one nothing happens.  With one,
    it ends with the spinner off: an answer "running" is announced at once
    through [onRepoReady], an answer "building" starts the polling, any
    other answer is only stored; a failed request leaves its message.  An
    error message from before stays unless the request itself fails. *)
Theorem handleStart_spec
    (started : settled (Response RepoInfo))
    (answers : list (settled (Response RepoInfo))) (st : RepoInputState) :
  match repo st with
  | None =>
      handleStart started answers st
      = {| polled_state := st; polled_ready := []; polled_pending := false |}
  | Some _ =>
      ri_loading (polled_state (handleStart started answers st)) = false
      /\ match startRepo started with
         | Rejected err =>
             handleStart started answers st
             = {| polled_state :=
                    {| url := url st; ri_loading := false;
                       ri_error := Some (message_or "Failed to start repo" err);
                       repo := repo st |};
                  polled_ready := [];
                  polled_pending := false |}
         | Fulfilled result =>
             match repo_status result with
             | building =>
                 handleStart started answers st
                 = pollStatus answers
                     {| url := url st; ri_loading := false;
                        ri_error := ri_error st; repo := Some result |}
             | status =>
                 handleStart started answers st
                 = {| polled_state :=
                        {| url := url st; ri_loading := false;
                           ri_error := ri_error st; repo := Some result |};
                      polled_ready :=
                        match status with running => [result] | _ => [] end;
                      polled_pending := false |}
             end
         end
  end.
Proof.
  unfold handleStart. destruct (repo st) as [current|] eqn:Hrepo; [|done].
  destruct (startRepo started) as [result|err] eqn:Hstarted.
  - destruct (repo_status result) eqn:Hstatus; try done.
    split; [|done].
    match goal with
    | |- context [pollStatus answers ?st0] =>
        destruct (pollStatus_frame answers st0) as [_ Hloading]
    end.
    by rewrite Hloading.
  - split; [done|]. unfold setLoading, setError. cbn. by rewrite Hrepo.
Qed.

(** ** The chat panel *)

(** X24: Nothing is sent while a reply is awaited or when the input is only white
    space.  Otherwise the transcript grows by exactly two messages, after
    all earlier ones: the user's, with the trimmed input, and then one from
    the assistant, which is the answer, or ["Error: "] and the failure's
    message when the request failed; the input is emptied and the spinner is
    off again.  The first action of the answer, if any, becomes the pending
    action; [onHighlight] is called at most once, and never after a
    failure. *)
Theorem sendMessage_spec
    (trim : string -> string) (traceId : option string)
    (network : ChatRequest -> settled (Response AgentResponse))
    (sent answered : float) (st : ChatPanelState) :
  (trim (input st) = "" \/ cp_loading st = true ->
   sendMessage trim traceId network sent answered st = (st, []))
  /\ (trim (input st) <> "" -> cp_loading st = false ->
      let '(st', calls) := sendMessage trim traceId network sent answered st in
      exists reply,
        messages st'
        = (messages st
           ++ [{| role := user; content := trim (input st);
                  timestamp := Some sent |}; reply])%list
        /\ role reply = assistant
        /\ timestamp reply = Some answered
        /\ input st' = ""
        /\ cp_loading st' = false
        /\ cp_isOpen st' = cp_isOpen st
        /\ length calls <= 1
        /\ match chat (network {| chat_message := trim (input st);
                                  selectedTraceId_param := or_undefined traceId |})
           with
           | Fulfilled response =>
               content reply = answer response
               /\ calls = highlight_calls response
               /\ pendingAction st'
                  = match actions response with
                    | Some (first :: _) => Some first
                    | _ => pendingAction st
                    end
           | Rejected err =>
               content reply = "Error: " ++ message_or "Failed to get response" err
               /\ calls = []
               /\ pendingAction st' = pendingAction st
           end).
Proof.
  split.
  - intros Hguard. unfold sendMessage.
    destruct Hguard as [Hblank|Hloading].
    + by rewrite Hblank, bool_decide_eq_false_2 by (intros H; by apply H).
    + rewrite Hloading. by rewrite orb_true_r.
  - intros Hinput Hloading. unfold sendMessage.
    rewrite bool_decide_eq_true_2, Hloading by done. cbn [negb orb content].
    destruct (chat (network _)) as [response|err].
    + eexists. rewrite <- app_assoc. repeat split. unfold highlight_calls.
      destruct (_ || _); simpl; lia.
    + eexists. rewrite <- app_assoc. repeat split. simpl. lia.
Qed.

Lemma sendMessage_spec_witness :
  let '(st', calls) :=
    sendMessage (fun s => s) None
      (fun _ => Rejected (ThrownError "offline")) 1%float 2%float
      {| cp_isOpen := true; messages := []; input := "what is slow?";
         cp_loading := false; pendingAction := None |} in
  exists reply,
    messages st'
    = ([] ++ [{| role := user; content := "what is slow?";
                 timestamp := Some 1%float |}; reply])%list
    /\ role reply = assistant
    /\ timestamp reply = Some 2%float
    /\ input st' = ""
    /\ cp_loading st' = false
    /\ cp_isOpen st' = true
    /\ length calls <= 1
    /\ match chat ((fun _ => Rejected (ThrownError "offline"))
                     {| chat_message := "what is slow?";
                        selectedTraceId_param := or_undefined None |})
       with
       | Fulfilled response =>
           content reply = answer response
           /\ calls = highlight_calls response
           /\ pendingAction st'
              = match actions response with
                | Some (first :: _) => Some first
                | _ => None
                end
       | Rejected err =>
           content reply = "Error: " ++ message_or "Failed to get response" err
           /\ calls = []
           /\ pendingAction st' = None
       end.
Proof.
  apply (sendMessage_spec (fun s => s) None
           (fun _ => Rejected (ThrownError "offline")) 1%float 2%float
           {| cp_isOpen := true; messages := []; input := "what is slow?";
              cp_loading := false; pendingAction := None |}).
  - simpl. discriminate.
  - reflexivity.
Defined.

(** X25: What a reply does to the highlight the application holds: a reply that
    names at least one node or edge replaces both lists (a missing list
    counts as empty); a reply that names none leaves the highlight as it
    was, it does not clear it.  Nothing else of the application's state
    changes. *)
Theorem highlight_after_reply (response : AgentResponse) (st : AppState) :
  let st' := after_highlights (highlight_calls response) st in
  (if has_items (ui response ≫= highlightNodes)
      || has_items (ui response ≫= highlightEdges)
   then highlightedNodes st' = default [] (ui response ≫= highlightNodes)
        /\ highlightedEdges st' = default [] (ui response ≫= highlightEdges)
   else st' = st)
  /\ selectedTraceId st' = selectedTraceId st
  /\ flowData st' = flowData st
  /\ selectedNode st' = selectedNode st
  /\ viewMode st' = viewMode st.
Proof.
  unfold after_highlights, highlight_calls.
  destruct (has_items _ || has_items _); by repeat split.
Qed.

(** ** The application *)

(** X26: Selecting a trace stores its id, drops the node selection and both
    highlight lists and turns the static view into the runtime view, the
    runtime and the overlay view staying as they are; the rest of the state
    is kept.  So whatever graph the canvas then shows has no highlighted node
    and no emphasised edge. *)
Theorem handleSelectTrace_clears
    (layout : graphlib.Graph -> outcome graphlib.Graph)
    (traceId : string) (st : AppState) :
  let st' := handleSelectTrace traceId st in
  selectedTraceId st' = Some traceId
  /\ selectedNode st' = None
  /\ highlightedNodes st' = [] /\ highlightedEdges st' = []
  /\ (viewMode st = static -> viewMode st' = runtime)
  /\ (viewMode st = runtime -> viewMode st' = runtime)
  /\ (viewMode st = overlay -> viewMode st' = overlay)
  /\ viewMode st' <> static
  /\ (viewMode st <> static -> viewMode st' = viewMode st)
  /\ flowData st' = flowData st
  /\ app_loading st' = app_loading st
  /\ app_error st' = app_error st
  /\ activeRepo st' = activeRepo st
  /\ jaegerConnected st' = jaegerConnected st
  /\ forall data ns es,
      FlowCanvas layout (Some data) (highlightedNodes st') (highlightedEdges st')
      = Returns (Some (ns, es)) ->
      Forall (fun n => highlighted (rf_data n) = Some false) ns
      /\ Forall (fun e => emphasized e = false) es.
Proof.
  cbn zeta. unfold handleSelectTrace; cbn [selectedTraceId selectedNode
    highlightedNodes highlightedEdges viewMode flowData app_loading app_error
    activeRepo jaegerConnected].
  do 4 (split; [done|]).
  do 3 (split; [by intros ->|]).
  split; [by destruct (viewMode st)|].
  split; [by destruct (viewMode st)|].
  do 5 (split; [reflexivity|]).
  intros data ns es. unfold FlowCanvas, canvas_elements.
  destruct (applyDagreLayout _ _ _ _) as [[ns' es']|]; run_binds; [|done].
  intros [= <- <-]. split.
  - unfold styledNodes. apply Forall_forall.
    intros n' Hn'. apply list_elem_of_In, in_map_iff in Hn' as (n & <- & _).
    cbn [rf_data with_highlighted highlighted]. by rewrite includes_nil.
  - unfold styledEdges. apply Forall_forall.
    intros e' He'. apply list_elem_of_In, in_map_iff in He' as (e & <- & _).
    unfold emphasized. cbn [rfe_style fmap option_fmap option_map stroke].
    by rewrite includes_nil.
Qed.

(** X27: Loading the flow of the selected trace always ends with the spinner off.
    In the runtime view an answer that is not [ok] leaves no graph and an
    error the canvas area shows instead of the canvas: "Trace <id> not
    found" for status 404, ['Failed to fetch runtime flow'] for any other
    status.  An [ok] answer whose body parses leaves that graph and no
    error, and the canvas shows it with the highlight held at that time.
    Without a selected trace nothing is asked, and the graph is dropped
    unless the view is the static one. *)
Theorem fetchFlow_spec
    (fetched : settled (Response FlowGraph)) (st : AppState) :
  (nonempty (selectedTraceId st) = false ->
   fetchFlow fetched st
   = {| selectedTraceId := selectedTraceId st;
        flowData := match viewMode st with
                    | static => flowData st
                    | _ => None
                    end;
        selectedNode := selectedNode st;
        highlightedNodes := highlightedNodes st;
        highlightedEdges := highlightedEdges st;
        viewMode := viewMode st;
        app_loading := app_loading st;
        app_error := app_error st;
        activeRepo := activeRepo st;
        jaegerConnected := jaegerConnected st |})
  /\ (forall traceId,
         selectedTraceId st = Some traceId -> traceId <> "" ->
         app_loading (fetchFlow fetched st) = false
         /\ highlightedNodes (fetchFlow fetched st) = highlightedNodes st
         /\ highlightedEdges (fetchFlow fetched st) = highlightedEdges st
         /\ match fetched with
            | Rejected err =>
                flowData (fetchFlow fetched st) = None
                /\ app_error (fetchFlow fetched st)
                   = Some (message_or "Failed to fetch flow" err)
            | Fulfilled response =>
                if ok response then
                  match json response with
                  | Fulfilled data =>
                      canvas_area (fetchFlow fetched st)
                      = ShowsCanvas (Some data) (highlightedNodes st)
                          (highlightedEdges st)
                  | Rejected err =>
                      flowData (fetchFlow fetched st) = None
                      /\ app_error (fetchFlow fetched st)
                         = Some (message_or "Failed to fetch flow" err)
                  end
                else
                  flowData (fetchFlow fetched st) = None
                  /\ canvas_area (fetchFlow fetched st)
                     = ShowsError
                         (match viewMode st with
                          | static => "Failed to fetch static flow"
                          | _ =>
                              if (http_status response =? 404)%float
                              then "Trace " ++ traceId ++ " not found"
                              else "Failed to fetch runtime flow"
                          end)
            end).
Proof.
  split.
  - intros Hnone. unfold fetchFlow. by rewrite Hnone.
  - intros traceId Hsel Hne. unfold fetchFlow.
    assert (Hyes : nonempty (selectedTraceId st) = true).
    { rewrite Hsel. by apply bool_decide_eq_true. }
    rewrite Hyes, Hsel. cbn [default].
    unfold getStaticFlow, getRuntimeFlow, json_or_throw.
    destruct fetched as [response|err].
    + destruct (ok response).
      * destruct (json response) as [data|err];
          by destruct (viewMode st).
      * destruct (viewMode st); try done;
          by destruct (http_status response =? 404)%float.
    + by destruct (viewMode st).
Qed.
